(** * Model-reference adaptive controller ([mrac_controller.py])

  A shallow embedding of [MRAC_Controller]: its constructor, the two ROS
  callbacks [set_waypoint] and [get_command], the reference-model step
  [increment_reference] and the virtual allocator [thruster_mapper].

  Arithmetic.  numpy's float64 arrays are modelled over the real numbers
  ([R]): the statements of the main development are about the exact
  arithmetic the code approximates.  What rounding, overflow and NaN
  change is settled on IEEE binary64 values: module [Binary64] repeats
  [thruster_mapper], and module [Binary64Tick] the PD wrench of
  [get_command] and its saturation.

  Shapes.  Every array the constructor creates has a fixed shape, so
  2-, 3-, 4- and 5-vectors and 3x3 matrices are tuples; only the number N
  of thrusters is left open (arrays indexed by thruster are lists).

  Libraries.  [tf.transformations] and [numpy.linalg.pinv] are not part of
  the repository: they are parameters (classes [trns.Transformations] and
  [npl.Linalg]); reference instances are given for concrete runs.

  Exceptions.  Of the exceptions the code can raise, the model has one,
  [np.max] on an empty command: it is the result [None].  The exceptions
  raised on values that are not finite ([math.cos] of an infinity,
  [LinAlgError] of [npl.pinv]) have no counterpart over [R], and arrays of
  unequal length, which the constructor cannot build, are cut to the
  shorter one where numpy refuses them.  A statement about a completed
  callback is therefore about a callback in which the code raises none of
  these. *)

From Stdlib Require Import Reals Lra Psatz Lia ZArith List Bool.
From Stdlib Require String Floats.
Import ListNotations.
Import String.StringSyntax.
Delimit Scope string_scope with string.

Local Open Scope R_scope.

(** ** Fixed-shape arrays *)

Definition vec2 : Type := R * R.
Definition vec3 : Type := R * R * R.
Definition vec5 : Type := R * R * R * R * R.
(** Quaternions in tf's order [[x, y, z, w]]. *)
Definition quat : Type := R * R * R * R.
(** Matrices are tuples of rows. *)
Definition mat3 : Type := vec3 * vec3 * vec3.
Definition mat4 : Type := quat * quat * quat * quat.
Definition mat35 : Type := vec5 * vec5 * vec5.
(** A 3xN array: three rows of N entries. *)
Definition mat3N : Type := list R * list R * list R.
(** A 6-vector and a 6xN array, as produced by [np.concatenate] of two
  3-row blocks. *)
Definition vec6 : Type := vec3 * vec3.
Definition mat6N : Type := mat3N * mat3N.

Module V2.
Definition add (a b : vec2) : vec2 :=
  let '(a0, a1) := a in let '(b0, b1) := b in (a0 + b0, a1 + b1).
Definition sub (a b : vec2) : vec2 :=
  let '(a0, a1) := a in let '(b0, b1) := b in (a0 - b0, a1 - b1).
Definition neg (a : vec2) : vec2 := let '(a0, a1) := a in (- a0, - a1).
(** [a * s] and [a / s] for a scalar [s]. *)
Definition scale (a : vec2) (s : R) : vec2 :=
  let '(a0, a1) := a in (a0 * s, a1 * s).
Definition div (a : vec2) (s : R) : vec2 :=
  let '(a0, a1) := a in (a0 / s, a1 / s).
End V2.

Module V3.
Definition add (a b : vec3) : vec3 :=
  let '(a0, a1, a2) := a in let '(b0, b1, b2) := b in (a0 + b0, a1 + b1, a2 + b2).
Definition sub (a b : vec3) : vec3 :=
  let '(a0, a1, a2) := a in let '(b0, b1, b2) := b in (a0 - b0, a1 - b1, a2 - b2).
(** Elementwise product [a * b]. *)
Definition mul (a b : vec3) : vec3 :=
  let '(a0, a1, a2) := a in let '(b0, b1, b2) := b in (a0 * b0, a1 * b1, a2 * b2).
Definition div (a b : vec3) : vec3 :=
  let '(a0, a1, a2) := a in let '(b0, b1, b2) := b in (a0 / b0, a1 / b1, a2 / b2).
Definition scale (a : vec3) (s : R) : vec3 :=
  let '(a0, a1, a2) := a in (a0 * s, a1 * s, a2 * s).
Definition abs (a : vec3) : vec3 :=
  let '(a0, a1, a2) := a in (Rabs a0, Rabs a1, Rabs a2).
(** [a ** 2]. *)
Definition sq (a : vec3) : vec3 :=
  let '(a0, a1, a2) := a in (a0 ^ 2, a1 ^ 2, a2 ^ 2).
Definition dot (a b : vec3) : R :=
  let '(a0, a1, a2) := a in let '(b0, b1, b2) := b in a0 * b0 + a1 * b1 + a2 * b2.
(** [np.cross] of two 3-vectors. *)
Definition cross (a b : vec3) : vec3 :=
  let '(a0, a1, a2) := a in let '(b0, b1, b2) := b in
  (a1 * b2 - a2 * b1, a2 * b0 - a0 * b2, a0 * b1 - a1 * b0).
(** Indexing [a[0]], [a[1]], [a[2]] and the slice [a[:2]]. *)
Definition i0 (a : vec3) : R := let '(a0, _, _) := a in a0.
Definition i1 (a : vec3) : R := let '(_, a1, _) := a in a1.
Definition i2 (a : vec3) : R := let '(_, _, a2) := a in a2.
Definition head2 (a : vec3) : vec2 := let '(a0, a1, _) := a in (a0, a1).
(** [np.concatenate((p, [s]))] of a 2-vector and a scalar. *)
Definition concat (p : vec2) (s : R) : vec3 := let '(p0, p1) := p in (p0, p1, s).
End V3.

Module V5.
Definition add (a b : vec5) : vec5 :=
  let '(a0, a1, a2, a3, a4) := a in let '(b0, b1, b2, b3, b4) := b in
  (a0 + b0, a1 + b1, a2 + b2, a3 + b3, a4 + b4).
Definition mul (a b : vec5) : vec5 :=
  let '(a0, a1, a2, a3, a4) := a in let '(b0, b1, b2, b3, b4) := b in
  (a0 * b0, a1 * b1, a2 * b2, a3 * b3, a4 * b4).
Definition scale (a : vec5) (s : R) : vec5 :=
  let '(a0, a1, a2, a3, a4) := a in (a0 * s, a1 * s, a2 * s, a3 * s, a4 * s).
Definition dot (a b : vec5) : R :=
  let '(a0, a1, a2, a3, a4) := a in let '(b0, b1, b2, b3, b4) := b in
  a0 * b0 + a1 * b1 + a2 * b2 + a3 * b3 + a4 * b4.
End V5.

Module M3.
(** [np.diag([a, b, c])]. *)
Definition diag (a b c : R) : mat3 := ((a, 0, 0), (0, b, 0), (0, 0, c)).
(** [M.T]. *)
Definition T (m : mat3) : mat3 :=
  let '((a00, a01, a02), (a10, a11, a12), (a20, a21, a22)) := m in
  ((a00, a10, a20), (a01, a11, a21), (a02, a12, a22)).
(** [M.dot(v)] for a 3-vector [v]. *)
Definition mv (m : mat3) (v : vec3) : vec3 :=
  let '(r0, r1, r2) := m in (V3.dot r0 v, V3.dot r1 v, V3.dot r2 v).
(** [A.dot(B)] for two 3x3 arrays. *)
Definition mm (a b : mat3) : mat3 :=
  let '(c0, c1, c2) := T b in
  let row r := (V3.dot r c0, V3.dot r c1, V3.dot r c2) in
  let '(r0, r1, r2) := a in (row r0, row r1, row r2).
(** The slice [M[:3, :3]] of a 4x4 array. *)
Definition of_mat4 (m : mat4) : mat3 :=
  let '((a00, a01, a02, _), (a10, a11, a12, _), (a20, a21, a22, _), _) := m in
  ((a00, a01, a02), (a10, a11, a12), (a20, a21, a22)).
End M3.

(** ** numpy: scalars and arrays indexed by thruster *)

Module np.
(** [np.clip(x, lo, hi)], that is [minimum(hi, maximum(x, lo))], on real
    numbers; [Binary64Tick.clip] is the function on binary64 values, NaN
    included. *)
Definition clip (x lo hi : R) : R := Rmin hi (Rmax x lo).

(** [np.deg2rad]. *)
Definition deg2rad (d : R) : R := d * (PI / 180).

(** [np.arctan2(y, x)], the angle of the point (x, y) in (-pi, pi]. *)
Definition arctan2 (y x : R) : R :=
  if Rlt_dec 0 x then atan (y / x)
  else if Rlt_dec x 0 then
    (if Rle_dec 0 y then atan (y / x) + PI else atan (y / x) - PI)
  else if Rlt_dec 0 y then PI / 2
  else if Rlt_dec y 0 then - (PI / 2)
  else 0.

(** [np.angle(re + 1j * im)]. *)
Definition angle (re im : R) : R := arctan2 im re.

(** [np.max] of a 1-d array; numpy raises [ValueError] on an empty one. *)
Definition max (v : list R) : option R :=
  match v with
  | [] => None
  | x :: xs => Some (fold_left Rmax xs x)
  end.

(** Dot product of two 1-d arrays (numpy raises when the lengths differ;
    here the longer one is cut). *)
Fixpoint dot (u v : list R) : R :=
  match u, v with
  | a :: u', b :: v' => a * b + dot u' v'
  | _, _ => 0
  end.

(** [s * v] for a scalar [s]. *)
Definition scale (s : R) (v : list R) : list R := map (Rmult s) v.

(** Elementwise sum of two 1-d arrays of one length. *)
Fixpoint add (u v : list R) : list R :=
  match u, v with
  | a :: u', b :: v' => (a + b) :: add u' v'
  | _, _ => []
  end.

(** [np.cross(P, D)] of two Nx3 arrays, row by row. *)
Fixpoint cross (p d : list vec3) : list vec3 :=
  match p, d with
  | a :: p', b :: d' => V3.cross a b :: cross p' d'
  | _, _ => []
  end.

(** [A.T] of an Nx3 array: a 3xN array. *)
Definition T (a : list vec3) : mat3N := (map V3.i0 a, map V3.i1 a, map V3.i2 a).

(** [P.dot(w)] of an Nx3 array and a 3-vector: an N-vector. *)
Definition mv_N3 (p : list vec3) (w : vec3) : list R := map (fun r => V3.dot r w) p.

(** [B.dot(c)] of a 3xN array and an N-vector: a 3-vector. *)
Definition mv_3N (b : mat3N) (c : list R) : vec3 :=
  let '(b0, b1, b2) := b in (dot b0 c, dot b1 c, dot b2 c).

(** The row [a0 * x0 + a1 * x1 + a2 * x2] of a product [A.dot(X)],
    [a] a row of the 3x3 array [A] and [X] a 3xN array. *)
Definition row_mm (a : vec3) (x : mat3N) : list R :=
  let '(a0, a1, a2) := a in let '(x0, x1, x2) := x in
  add (add (scale a0 x0) (scale a1 x1)) (scale a2 x2).

(** [A.dot(X)] of a 3x3 array and a 3xN array: a 3xN array. *)
Definition mm_3N (a : mat3) (x : mat3N) : mat3N :=
  let '(a0, a1, a2) := a in (row_mm a0 x, row_mm a1 x, row_mm a2 x).

(** [B.dot(c)] of a 6xN array and an N-vector. *)
Definition mv_6N (b : mat6N) (c : list R) : vec6 :=
  let '(top, bottom) := b in (mv_3N top c, mv_3N bottom c).
End np.

(** Indexing a 6-vector: [v[0]], [v[1]], [v[5]], and the slice [v[:2]]. *)
Module V6.
Definition i0 (v : vec6) : R := V3.i0 (fst v).
Definition i1 (v : vec6) : R := V3.i1 (fst v).
Definition i5 (v : vec6) : R := V3.i2 (snd v).
Definition head2 (v : vec6) : vec2 := V3.head2 (fst v).
End V6.

(** ** Libraries outside the repository *)

Module npl.
(** [npl.norm] of a 2-vector. *)
Definition norm (a : vec2) : R := let '(a0, a1) := a in sqrt (a0 * a0 + a1 * a1).

(** [npl.pinv] of a 3xN array: an Nx3 array (a list of N rows). *)
Class Linalg : Type := { pinv : mat3N -> list vec3 }.
End npl.

Module trns.
(** The functions of [tf.transformations] the controller calls.
    [quaternion_matrix] returns a 4x4 array, [euler_from_quaternion] the
    triple (roll, pitch, yaw). *)
Class Transformations : Type := {
  quaternion_matrix : quat -> mat4;
  euler_from_quaternion : quat -> vec3;
  quaternion_multiply : quat -> quat -> quat;
  quaternion_inverse : quat -> quat;
  quaternion_from_euler : R -> R -> R -> quat
}.
End trns.

(** ** ROS messages *)

(** [rospy.Time]: whole seconds and nanoseconds. *)
Record Time : Type := { secs : Z; nsecs : Z }.

Module rospy.
Definition to_nsec (t : Time) : Z := (secs t * 1000000000 + nsecs t)%Z.
(** [(a - b).to_sec()]: the Duration [a - b] is kept in canonical form
    (whole seconds, and nanoseconds in [0, 10^9)); [to_sec] adds them. *)
Definition sub_to_sec (a b : Time) : R :=
  let d := (to_nsec a - to_nsec b)%Z in
  IZR (d / 1000000000) + IZR (d mod 1000000000) / 1000000000.
End rospy.

Record Point : Type := { pt_x : R; pt_y : R; pt_z : R }.
Record Vector3 : Type := { v3_x : R; v3_y : R; v3_z : R }.
Record Quaternion : Type := { qt_x : R; qt_y : R; qt_z : R; qt_w : R }.

(** [nav_msgs/Odometry], the fields the controller reads. *)
Record Odometry : Type := {
  header_stamp : Time;
  pose_position : Point;
  pose_orientation : Quaternion;
  twist_linear : Vector3;
  twist_angular : Vector3
}.

Record PoseStamped : Type := {
  ps_frame_id : String.string;
  ps_stamp : Time;
  ps_position : Point;
  ps_orientation : Quaternion
}.

Record WrenchStamped : Type := {
  ws_frame_id : String.string;
  ws_force : Vector3;
  ws_torque : Vector3
}.

(** The message [Quaternion] built by unpacking the four entries of [q]. *)
Definition Quaternion_of (q : quat) : Quaternion :=
  let '(x, y, z, w) := q in {| qt_x := x; qt_y := y; qt_z := z; qt_w := w |}.

(** The Euclidean norm of a quaternion. *)
Definition quat_norm (q : quat) : R :=
  let '(x, y, z, w) := q in sqrt (x * x + y * y + z * z + w * w).

(** Message constructors called without arguments. *)
Definition Time0 : Time := {| secs := 0; nsecs := 0 |}.
Definition Odometry0 : Odometry :=
  {| header_stamp := Time0;
     pose_position := {| pt_x := 0; pt_y := 0; pt_z := 0 |};
     pose_orientation := {| qt_x := 0; qt_y := 0; qt_z := 0; qt_w := 0 |};
     twist_linear := {| v3_x := 0; v3_y := 0; v3_z := 0 |};
     twist_angular := {| v3_x := 0; v3_y := 0; v3_z := 0 |} |}.

(** ** The controller object *)

Record MRAC_Controller : Type := {
  kp_body : mat3;
  kd_body : mat3;
  ki : vec3;
  kg : vec5;
  dist_est : vec3;
  drag_est : vec5;
  vel_max_body : vec3;
  heading_threshold : R;
  only_PD : bool;
  mass_ref : R;
  inertia_ref : R;
  thrust_max : R;
  thruster_positions : list vec3;
  thruster_directions : list vec3;
  lever_arms : list vec3;
  B_body : mat6N;
  Fx_max_body : vec6;
  Fy_max_body : vec6;
  Mz_max_body : vec6;
  D_body : vec3;
  p_des : vec2;
  q_des : quat;
  traversal : R;
  p_ref : vec2;
  v_ref : vec2;
  q_ref : quat;
  w_ref : R;
  a_ref : vec2;
  aa_ref : R;
  timestep : R;
  position : vec2;
  orientation : quat;
  lin_vel : vec2;
  ang_vel : R;
  state : Odometry;
  last_odom : option Odometry
}.

(** [__init__]: the hard-coded tunables, the reference model derived from
    the thruster geometry, and the initial reference state. *)
Definition init : MRAC_Controller :=
  let thrust_max := 220 in
  let vel_max_body := (1.5, 0.5, 0.5) in
  let thruster_positions :=
    [ (-1.9000,  1.0000, -0.0123);
      (-1.9000, -1.0000, -0.0123);
      ( 1.6000, -0.6000, -0.0123);
      ( 1.6000,  0.6000, -0.0123) ] in
  let thruster_directions :=
    [ (0.7071,  0.7071, 0.0000);
      (0.7071, -0.7071, 0.0000);
      (0.7071,  0.7071, 0.0000);
      (0.7071, -0.7071, 0.0000) ] in
  let lever_arms := np.cross thruster_positions thruster_directions in
  let B_body := (np.T thruster_directions, np.T lever_arms) in
  let Fx_max_body := np.mv_6N B_body (np.scale thrust_max [1; 1; 1; 1]) in
  let Fy_max_body := np.mv_6N B_body (np.scale thrust_max [1; -1; 1; -1]) in
  let Mz_max_body := np.mv_6N B_body (np.scale thrust_max [-1; 1; 1; -1]) in
  {| kp_body := M3.diag 600 700 700;
     kd_body := M3.diag 650 750 750;
     ki := (0.1, 0.1, 0.1);
     kg := (3, 3, 3, 3, 3);
     dist_est := (0, 0, 0);
     drag_est := (0, 0, 0, 0, 0);
     vel_max_body := vel_max_body;
     heading_threshold := 500;
     only_PD := true;
     mass_ref := 300;
     inertia_ref := 300;
     thrust_max := thrust_max;
     thruster_positions := thruster_positions;
     thruster_directions := thruster_directions;
     lever_arms := lever_arms;
     B_body := B_body;
     Fx_max_body := Fx_max_body;
     Fy_max_body := Fy_max_body;
     Mz_max_body := Mz_max_body;
     D_body := V3.div (V3.abs (V6.i0 Fx_max_body, V6.i1 Fy_max_body, V6.i5 Mz_max_body))
                      (V3.sq vel_max_body);
     p_des := (0, 0);
     q_des := (1, 0, 0, 0);
     traversal := 0;
     p_ref := (0, 0);
     v_ref := (0, 0);
     q_ref := (0, 0, 0, 0);
     w_ref := 0;
     a_ref := (0, 0);
     aa_ref := 0;
     timestep := 0.02;
     position := (0, 0);
     orientation := (1, 0, 0, 0);
     lin_vel := (0, 0);
     ang_vel := 0;
     state := Odometry0;
     last_odom := None |}.

Module M35.
(** [M.dot(v)] of a 3x5 array and a 5-vector. *)
Definition mv (m : mat35) (v : vec5) : vec3 :=
  let '(r0, r1, r2) := m in (V5.dot r0 v, V5.dot r1 v, V5.dot r2 v).
(** [M.T.dot(v)] of a 3x5 array and a 3-vector. *)
Definition Tmv (m : mat35) (v : vec3) : vec5 :=
  let '((a00, a01, a02, a03, a04),
        (a10, a11, a12, a13, a14),
        (a20, a21, a22, a23, a24)) := m in
  let '(v0, v1, v2) := v in
  (a00 * v0 + a10 * v1 + a20 * v2,
   a01 * v0 + a11 * v1 + a21 * v2,
   a02 * v0 + a12 * v1 + a22 * v2,
   a03 * v0 + a13 * v1 + a23 * v2,
   a04 * v0 + a14 * v1 + a24 * v2).
End M35.

Section Controller.

Context {tf : trns.Transformations} {la : npl.Linalg}.

(** *** [thruster_mapper] *)

(** The minimum-energy command [npl.pinv(B).dot(wrench)]. *)
Definition min_energy_command (wrench : vec3) (B : mat3N) : list R :=
  np.mv_N3 (npl.pinv B) wrench.

(** [thruster_mapper(wrench, B)].  [None] is the [ValueError] of [np.max]
    on an empty command (a mapping without thrusters).  The quotient and
    the products are exact here; [Binary64.thruster_mapper] has them
    rounded. *)
Definition thruster_mapper (self : MRAC_Controller) (wrench : vec3) (B : mat3N)
  : option (list R) :=
  let command := min_energy_command wrench B in
  match np.max (map Rabs command) with
  | None => None
  | Some command_max =>
      if Rlt_dec (thrust_max self) command_max
      then Some (np.scale (thrust_max self / command_max) command)
      else Some command
  end.

(** *** [set_waypoint] *)

(** The message published on [desired_pose_ref]. *)
Definition desired_pose_msg (msg : Point) (q_des : quat) : PoseStamped :=
  {| ps_frame_id := "/enu"%string;
     ps_stamp := Time0;
     ps_position := {| pt_x := pt_x msg; pt_y := pt_y msg; pt_z := 0 |};
     ps_orientation := Quaternion_of q_des |}.

Definition set_waypoint (msg : Point) (self : MRAC_Controller)
  : MRAC_Controller * PoseStamped :=
  let p_des' := (pt_x msg, pt_y msg) in
  let q_des' := trns.quaternion_from_euler 0 0 (np.deg2rad (pt_z msg)) in
  ({| kp_body := kp_body self;
      kd_body := kd_body self;
      ki := ki self;
      kg := kg self;
      dist_est := dist_est self;
      drag_est := drag_est self;
      vel_max_body := vel_max_body self;
      heading_threshold := heading_threshold self;
      only_PD := only_PD self;
      mass_ref := mass_ref self;
      inertia_ref := inertia_ref self;
      thrust_max := thrust_max self;
      thruster_positions := thruster_positions self;
      thruster_directions := thruster_directions self;
      lever_arms := lever_arms self;
      B_body := B_body self;
      Fx_max_body := Fx_max_body self;
      Fy_max_body := Fy_max_body self;
      Mz_max_body := Mz_max_body self;
      D_body := D_body self;
      p_des := p_des';
      q_des := q_des';
      traversal := npl.norm (V2.sub p_des' (position self));
      p_ref := position self;
      v_ref := lin_vel self;
      q_ref := orientation self;
      w_ref := ang_vel self;
      a_ref := (0, 0);
      aa_ref := 0;
      timestep := timestep self;
      position := position self;
      orientation := orientation self;
      lin_vel := lin_vel self;
      ang_vel := ang_vel self;
      state := state self;
      last_odom := last_odom self |},
   desired_pose_msg msg q_des').

(** *** [increment_reference] *)

(** [R_ref] and [y_ref], the frame quantities of the reference model. *)
Definition R_ref (self : MRAC_Controller) : mat3 :=
  M3.of_mat4 (trns.quaternion_matrix (q_ref self)).
Definition y_ref (self : MRAC_Controller) : R :=
  V3.i2 (trns.euler_from_quaternion (q_ref self)).

(** [q_err] of the reference model: the rotation from the reference
    orientation to the heading target, chosen by "smartyaw". *)
Definition ref_q_err (self : MRAC_Controller) : quat :=
  let p_err := V2.sub (p_des self) (p_ref self) in
  if Rle_dec (npl.norm p_err) (heading_threshold self)
  then trns.quaternion_multiply (q_des self) (trns.quaternion_inverse (q_ref self))
  else
    let q_direct := trns.quaternion_from_euler 0 0 (np.angle (fst p_err) (snd p_err)) in
    trns.quaternion_multiply q_direct (trns.quaternion_inverse (q_ref self)).

(** The PD wrench that drives the virtual boat to the waypoint. *)
Definition ref_wrench (self : MRAC_Controller) : vec3 :=
  let kp := M3.mm (M3.mm (R_ref self) (kp_body self)) (M3.T (R_ref self)) in
  let kd := M3.mm (M3.mm (R_ref self) (kd_body self)) (M3.T (R_ref self)) in
  let p_err := V2.sub (p_des self) (p_ref self) in
  let v_err := V2.neg (v_ref self) in
  let w_err := - w_ref self in
  let y_err := V3.i2 (trns.euler_from_quaternion (ref_q_err self)) in
  let err := V3.concat p_err y_err in
  let errdot := V3.concat v_err w_err in
  V3.add (M3.mv kp err) (M3.mv kd errdot).

(** The world-frame thruster matrix [B] (6xN) and its rows 0, 1 and 5. *)
Definition ref_B (self : MRAC_Controller) : mat6N :=
  (np.mm_3N (R_ref self) (np.T (thruster_directions self)),
   np.mm_3N (R_ref self) (np.T (lever_arms self))).
Definition B_3dof (B : mat6N) : mat3N :=
  let '((b0, b1, _), (_, _, b5)) := B in (b0, b1, b5).

Definition increment_reference (self : MRAC_Controller) : option MRAC_Controller :=
  let B := ref_B self in
  match thruster_mapper self (ref_wrench self) (B_3dof B) with
  | None => None
  | Some command =>
      let wrench_saturated := np.mv_6N B command in
      let twist_body := M3.mv (M3.T (R_ref self)) (V3.concat (v_ref self) (w_ref self)) in
      let drag_ref :=
        M3.mv (R_ref self) (V3.mul (V3.mul (D_body self) twist_body) (V3.abs twist_body)) in
      let a_ref' :=
        V2.div (V2.sub (V6.head2 wrench_saturated) (V3.head2 drag_ref)) (mass_ref self) in
      let aa_ref' := (V6.i5 wrench_saturated - V3.i2 drag_ref) / inertia_ref self in
      Some
        {| kp_body := kp_body self;
           kd_body := kd_body self;
           ki := ki self;
           kg := kg self;
           dist_est := dist_est self;
           drag_est := drag_est self;
           vel_max_body := vel_max_body self;
           heading_threshold := heading_threshold self;
           only_PD := only_PD self;
           mass_ref := mass_ref self;
           inertia_ref := inertia_ref self;
           thrust_max := thrust_max self;
           thruster_positions := thruster_positions self;
           thruster_directions := thruster_directions self;
           lever_arms := lever_arms self;
           B_body := B_body self;
           Fx_max_body := Fx_max_body self;
           Fy_max_body := Fy_max_body self;
           Mz_max_body := Mz_max_body self;
           D_body := D_body self;
           p_des := p_des self;
           q_des := q_des self;
           traversal := traversal self;
           p_ref := V2.add (p_ref self) (V2.scale (v_ref self) (timestep self));
           v_ref := V2.add (v_ref self) (V2.scale a_ref' (timestep self));
           q_ref := trns.quaternion_from_euler 0 0 (y_ref self + w_ref self * timestep self);
           w_ref := w_ref self + aa_ref' * timestep self;
           a_ref := a_ref';
           aa_ref := aa_ref';
           timestep := timestep self;
           position := position self;
           orientation := orientation self;
           lin_vel := lin_vel self;
           ang_vel := ang_vel self;
           state := state self;
           last_odom := last_odom self |}
  end.

(** *** [get_command] *)

(** Lines 212-217: the timestep of this call. *)
Definition odom_timestep (msg : Odometry) (self : MRAC_Controller) : R :=
  match last_odom self with
  | None => timestep self
  | Some last => rospy.sub_to_sec (header_stamp msg) (header_stamp last)
  end.

(** [np.array([orientation.x, orientation.y, orientation.z, orientation.w])]. *)
Definition odom_orientation (msg : Odometry) : quat :=
  (qt_x (pose_orientation msg), qt_y (pose_orientation msg),
   qt_z (pose_orientation msg), qt_w (pose_orientation msg)).

(** The frame quantities [R] and [y] of the vehicle's orientation. *)
Definition frame_R (self_orientation : quat) : mat3 :=
  M3.of_mat4 (trns.quaternion_matrix self_orientation).
Definition frame_y (self_orientation : quat) : R :=
  V3.i2 (trns.euler_from_quaternion self_orientation).

(** Lines 212-235: timestep, and the message unpacked into the world frame. *)
Definition unpack (msg : Odometry) (self : MRAC_Controller) : MRAC_Controller :=
  let lin_vel_body := twist_linear msg in
  let ang_vel_body := twist_angular msg in
  let Rm := frame_R (odom_orientation msg) in
  {| kp_body := kp_body self;
     kd_body := kd_body self;
     ki := ki self;
     kg := kg self;
     dist_est := dist_est self;
     drag_est := drag_est self;
     vel_max_body := vel_max_body self;
     heading_threshold := heading_threshold self;
     only_PD := only_PD self;
     mass_ref := mass_ref self;
     inertia_ref := inertia_ref self;
     thrust_max := thrust_max self;
     thruster_positions := thruster_positions self;
     thruster_directions := thruster_directions self;
     lever_arms := lever_arms self;
     B_body := B_body self;
     Fx_max_body := Fx_max_body self;
     Fy_max_body := Fy_max_body self;
     Mz_max_body := Mz_max_body self;
     D_body := D_body self;
     p_des := p_des self;
     q_des := q_des self;
     traversal := traversal self;
     p_ref := p_ref self;
     v_ref := v_ref self;
     q_ref := q_ref self;
     w_ref := w_ref self;
     a_ref := a_ref self;
     aa_ref := aa_ref self;
     timestep := odom_timestep msg self;
     position := (pt_x (pose_position msg), pt_y (pose_position msg));
     orientation := odom_orientation msg;
     lin_vel := V3.head2 (M3.mv Rm (v3_x lin_vel_body, v3_y lin_vel_body, v3_z lin_vel_body));
     ang_vel := V3.i2 (M3.mv Rm (v3_x ang_vel_body, v3_y ang_vel_body, v3_z ang_vel_body));
     state := state self;
     last_odom := Some msg |}.

(** From here to [body_wrench], [self] is the controller after [unpack].
    The error vectors [err] and [errdot] (reference - true). *)
Definition err (self : MRAC_Controller) : vec3 :=
  let p_err := V2.sub (p_ref self) (position self) in
  let y_err :=
    V3.i2 (trns.euler_from_quaternion
             (trns.quaternion_multiply (q_ref self)
                (trns.quaternion_inverse (orientation self)))) in
  V3.concat p_err y_err.
Definition errdot (self : MRAC_Controller) : vec3 :=
  let v_err := V2.sub (v_ref self) (lin_vel self) in
  let w_err := w_ref self - ang_vel self in
  V3.concat v_err w_err.

(** The "learning" matrix. *)
Definition drag_regressor (self : MRAC_Controller) : mat35 :=
  let y := frame_y (orientation self) in
  let lv0 := fst (lin_vel self) in
  let lv1 := snd (lin_vel self) in
  let w := ang_vel self in
  ((lv0 * cos y ^ 2 + lv1 * sin y * cos y,
    lv0 / 2 - (lv0 * cos (2 * y)) / 2 - (lv1 * sin (2 * y)) / 2,
    - w * sin y,
    - w * cos y,
    0),
   (lv1 / 2 - (lv1 * cos (2 * y)) / 2 + (lv0 * sin (2 * y)) / 2,
    lv1 * cos y ^ 2 - lv0 * cos y * sin y,
    w * cos y,
    - w * sin y,
    0),
   (0,
    0,
    lv1 * cos y - lv0 * sin y,
    - lv0 * cos y - lv1 * sin y,
    w)).

(** The PD part [kp.dot(err) + kd.dot(errdot)] of the wrench. *)
Definition pd_wrench (self : MRAC_Controller) : vec3 :=
  let Rm := frame_R (orientation self) in
  let kp := M3.mm (M3.mm Rm (kp_body self)) (M3.T Rm) in
  let kd := M3.mm (M3.mm Rm (kd_body self)) (M3.T Rm) in
  V3.add (M3.mv kp (err self)) (M3.mv kd (errdot self)).

(** Lines 251-263: wrench = PD + feedforward + I + adaptation. *)
Definition world_wrench (self : MRAC_Controller) : vec3 :=
  let inertial_feedforward :=
    V3.mul (V3.concat (a_ref self) (aa_ref self))
           (mass_ref self, mass_ref self, inertia_ref self) in
  if only_PD self
  then pd_wrench self
  else V3.add (V3.add (V3.add (pd_wrench self) inertial_feedforward) (dist_est self))
              (M35.mv (drag_regressor self) (drag_est self)).

(** Lines 266-267: the disturbance and drag estimates for the next call. *)
Definition update_estimates (self : MRAC_Controller) : MRAC_Controller :=
  {| kp_body := kp_body self;
     kd_body := kd_body self;
     ki := ki self;
     kg := kg self;
     dist_est := V3.add (dist_est self) (V3.scale (V3.mul (ki self) (err self)) (timestep self));
     drag_est := V5.add (drag_est self)
                 (V5.scale (V5.mul (kg self)
                              (M35.Tmv (drag_regressor self)
                                       (V3.add (err self) (errdot self))))
                           (timestep self));
     vel_max_body := vel_max_body self;
     heading_threshold := heading_threshold self;
     only_PD := only_PD self;
     mass_ref := mass_ref self;
     inertia_ref := inertia_ref self;
     thrust_max := thrust_max self;
     thruster_positions := thruster_positions self;
     thruster_directions := thruster_directions self;
     lever_arms := lever_arms self;
     B_body := B_body self;
     Fx_max_body := Fx_max_body self;
     Fy_max_body := Fy_max_body self;
     Mz_max_body := Mz_max_body self;
     D_body := D_body self;
     p_des := p_des self;
     q_des := q_des self;
     traversal := traversal self;
     p_ref := p_ref self;
     v_ref := v_ref self;
     q_ref := q_ref self;
     w_ref := w_ref self;
     a_ref := a_ref self;
     aa_ref := aa_ref self;
     timestep := timestep self;
     position := position self;
     orientation := orientation self;
     lin_vel := lin_vel self;
     ang_vel := ang_vel self;
     state := state self;
     last_odom := last_odom self |}.

(** Lines 270-277: the wrench in the body frame, sign-flipped and saturated. *)
Definition body_wrench (self : MRAC_Controller) (wrench : vec3) : vec3 :=
  let '(w0, w1, w2) := M3.mv (M3.T (frame_R (orientation self))) wrench in
  let '(w0, w1, w2) := (w0, - w1, - w2) in
  (np.clip w0 (-600) 600, np.clip w1 (-600) 600, np.clip w2 (-600) 600).

(** The messages published on [/wrench/autonomous] and [pose_ref]. *)
Definition wrench_msg (wrench_body : vec3) : WrenchStamped :=
  {| ws_frame_id := "/base_link"%string;
     ws_force := {| v3_x := V3.i0 wrench_body; v3_y := V3.i1 wrench_body; v3_z := 0 |};
     ws_torque := {| v3_x := 0; v3_y := 0; v3_z := V3.i2 wrench_body |} |}.
Definition pose_ref_msg (msg : Odometry) (self : MRAC_Controller) : PoseStamped :=
  {| ps_frame_id := "/enu"%string;
     ps_stamp := header_stamp msg;
     ps_position := {| pt_x := fst (p_ref self); pt_y := snd (p_ref self); pt_z := 0 |};
     ps_orientation := Quaternion_of (q_ref self) |}.

(** [get_command(msg)].  [None]: the exception of [thruster_mapper] leaves
    the callback before anything is published (the fields assigned until
    then are not tracked). *)
Definition get_command (msg : Odometry) (self : MRAC_Controller)
  : option (MRAC_Controller * WrenchStamped * PoseStamped) :=
  let self1 := unpack msg self in
  let wrench := world_wrench self1 in
  let self2 := update_estimates self1 in
  match increment_reference self2 with
  | None => None
  | Some self3 =>
      Some (self3, wrench_msg (body_wrench self1 wrench), pose_ref_msg msg self3)
  end.

End Controller.

(** ** Vocabulary of the allocation claims *)

Module Alloc.
(** [B.dot(P)] of a 3xN array [B] and an Nx3 array [P]: a 3x3 array. *)
Definition BP (B : mat3N) (P : list vec3) : mat3 :=
  let Pt := np.T P in
  (np.mv_3N Pt (fst (fst B)), np.mv_3N Pt (snd (fst B)), np.mv_3N Pt (snd B)).

(** [P.dot(B)]: an NxN array, as a list of rows. *)
Definition PB (P : list vec3) (B : mat3N) : list (list R) :=
  map (fun p => np.row_mm p B) P.

(** [P.dot(M)] of an Nx3 array and a 3x3 array. *)
Definition PM (P : list vec3) (M : mat3) : list vec3 :=
  map (fun p => M3.mv (M3.T M) p) P.

Definition symmetric (M : list (list R)) : Prop :=
  forall k l : nat, nth l (nth k M []) 0 = nth k (nth l M []) 0.

(** [B] is a 3xN array. *)
Definition shape_3N (B : mat3N) (N : nat) : Prop :=
  let '(b0, b1, b2) := B in length b0 = N /\ length b1 = N /\ length b2 = N.

(** [P] is the Moore-Penrose pseudoinverse of the 3xN array [B]: it is Nx3
    and satisfies the four Penrose equations. *)
Definition is_pinv (B : mat3N) (P : list vec3) : Prop :=
  shape_3N B (length P) /\
  np.mm_3N (BP B P) B = B /\
  PM P (BP B P) = P /\
  M3.T (BP B P) = BP B P /\
  symmetric (PB P B).

(** The rows of [B] are linearly independent: no combination of them
    vanishes in every column, the trivial one apart. *)
Definition full_row_rank (B : mat3N) : Prop :=
  forall a : vec3, (forall k : nat, nth k (np.row_mm a B) 0 = 0) -> a = (0, 0, 0).

(** A command is within the actuator envelope. *)
Definition within (thrust_max : R) (command : list R) : Prop :=
  Forall (fun c => Rabs c <= thrust_max) command.
End Alloc.

(** ** Reference instances of the libraries, for concrete runs *)

Module tf_reference.
(** [quaternion_from_euler(ai, aj, ak)] for the default axes ['sxyz']. *)
Definition quaternion_from_euler (ai aj ak : R) : quat :=
  let ai := ai / 2 in let aj := aj / 2 in let ak := ak / 2 in
  let ci := cos ai in let si := sin ai in
  let cj := cos aj in let sj := sin aj in
  let ck := cos ak in let sk := sin ak in
  let cc := ci * ck in let cs := ci * sk in
  let sc := si * ck in let ss := si * sk in
  (cj * sc - sj * cs, cj * ss + sj * cc, cj * cs - sj * sc, cj * cc + sj * ss).

(** [_EPS = numpy.finfo(float).eps * 4.0]. *)
Definition EPS : R := 4 / 2 ^ 52.

Definition identity4 : mat4 :=
  ((1, 0, 0, 0), (0, 1, 0, 0), (0, 0, 1, 0), (0, 0, 0, 1)).

Definition quaternion_matrix (q : quat) : mat4 :=
  let '(x, y, z, w) := q in
  let nq := x * x + y * y + z * z + w * w in
  if Rlt_dec nq EPS then identity4
  else
    let s := sqrt (2 / nq) in
    let '(x, y, z, w) := (x * s, y * s, z * s, w * s) in
    ((1 - y * y - z * z, x * y - z * w, x * z + y * w, 0),
     (x * y + z * w, 1 - x * x - z * z, y * z - x * w, 0),
     (x * z - y * w, y * z + x * w, 1 - x * x - y * y, 0),
     (0, 0, 0, 1)).

(** [euler_from_matrix(M)] for the default axes ['sxyz']. *)
Definition euler_from_matrix (M : mat4) : vec3 :=
  let '((m00, _, _, _), (m10, m11, m12, _), (m20, m21, m22, _), _) := M in
  let cy := sqrt (m00 * m00 + m10 * m10) in
  if Rlt_dec EPS cy
  then (np.arctan2 m21 m22, np.arctan2 (- m20) cy, np.arctan2 m10 m00)
  else (np.arctan2 (- m12) m11, np.arctan2 (- m20) cy, 0).

Definition euler_from_quaternion (q : quat) : vec3 :=
  euler_from_matrix (quaternion_matrix q).

Definition quaternion_multiply (quaternion1 quaternion0 : quat) : quat :=
  let '(x0, y0, z0, w0) := quaternion0 in
  let '(x1, y1, z1, w1) := quaternion1 in
  (  x1 * w0 + y1 * z0 - z1 * y0 + w1 * x0,
   - x1 * z0 + y1 * w0 + z1 * x0 + w1 * y0,
     x1 * y0 - y1 * x0 + z1 * w0 + w1 * z0,
   - x1 * x0 - y1 * y0 - z1 * z0 + w1 * w0).

Definition quaternion_inverse (q : quat) : quat :=
  let '(x, y, z, w) := q in
  let nq := x * x + y * y + z * z + w * w in
  (- x / nq, - y / nq, - z / nq, w / nq).

#[export] Instance tf : trns.Transformations :=
  {| trns.quaternion_matrix := quaternion_matrix;
     trns.euler_from_quaternion := euler_from_quaternion;
     trns.quaternion_multiply := quaternion_multiply;
     trns.quaternion_inverse := quaternion_inverse;
     trns.quaternion_from_euler := quaternion_from_euler |}.
End tf_reference.

Module pinv_reference.
(** The inverse of a 3x3 array by its adjugate. *)
Definition det3 (m : mat3) : R :=
  let '((a, b, c), (d, e, f), (g, h, i)) := m in
  a * (e * i - f * h) - b * (d * i - f * g) + c * (d * h - e * g).
Definition inv3 (m : mat3) : mat3 :=
  let '((a, b, c), (d, e, f), (g, h, i)) := m in
  let dt := det3 m in
  (((e * i - f * h) / dt, (c * h - b * i) / dt, (b * f - c * e) / dt),
   ((f * g - d * i) / dt, (a * i - c * g) / dt, (c * d - a * f) / dt),
   ((d * h - e * g) / dt, (b * g - a * h) / dt, (a * e - b * d) / dt)).

(** The columns of a 3xN array. *)
Fixpoint columns (b0 b1 b2 : list R) : list vec3 :=
  match b0, b1, b2 with
  | x :: b0', y :: b1', z :: b2' => (x, y, z) :: columns b0' b1' b2'
  | _, _, _ => []
  end.

(** [B.T (B B.T)^-1], the pseudoinverse of a 3xN array of full row rank. *)
Definition pinv (B : mat3N) : list vec3 :=
  let '(b0, b1, b2) := B in
  let G : mat3 :=
    ((np.dot b0 b0, np.dot b0 b1, np.dot b0 b2),
     (np.dot b1 b0, np.dot b1 b1, np.dot b1 b2),
     (np.dot b2 b0, np.dot b2 b1, np.dot b2 b2)) in
  map (M3.mv (M3.T (inv3 G))) (columns b0 b1 b2).

#[export] Instance la : npl.Linalg := {| npl.pinv := pinv |}.
End pinv_reference.

(** ** Inputs of the concrete runs *)

Module Run.
(** Three thrusters along the axes and a fourth that contributes nothing. *)
Definition B0 : mat3N := ([1; 0; 0; 0], [0; 1; 0; 0], [0; 0; 1; 0]).

(** An odometry message: the vehicle at rest at (x, y), heading along the
    world x axis, at time [t]. *)
Definition odom (t : Time) (x y : R) : Odometry :=
  {| header_stamp := t;
     pose_position := {| pt_x := x; pt_y := y; pt_z := 0 |};
     pose_orientation := {| qt_x := 0; qt_y := 0; qt_z := 0; qt_w := 1 |};
     twist_linear := {| v3_x := 0; v3_y := 0; v3_z := 0 |};
     twist_angular := {| v3_x := 0; v3_y := 0; v3_z := 0 |} |}.

Definition t1 : Time := {| secs := 10; nsecs := 0 |}.
Definition t2 : Time := {| secs := 10; nsecs := 20000000 |}.

(** The constructor with other values for the tunables [ki], [kg] and
    [only_PD]. *)
Definition tuned (ki' : vec3) (kg' : vec5) (only_PD' : bool) : MRAC_Controller :=
  {| kp_body := kp_body init;
     kd_body := kd_body init;
     ki := ki';
     kg := kg';
     dist_est := dist_est init;
     drag_est := drag_est init;
     vel_max_body := vel_max_body init;
     heading_threshold := heading_threshold init;
     only_PD := only_PD';
     mass_ref := mass_ref init;
     inertia_ref := inertia_ref init;
     thrust_max := thrust_max init;
     thruster_positions := thruster_positions init;
     thruster_directions := thruster_directions init;
     lever_arms := lever_arms init;
     B_body := B_body init;
     Fx_max_body := Fx_max_body init;
     Fy_max_body := Fy_max_body init;
     Mz_max_body := Mz_max_body init;
     D_body := D_body init;
     p_des := p_des init;
     q_des := q_des init;
     traversal := traversal init;
     p_ref := p_ref init;
     v_ref := v_ref init;
     q_ref := q_ref init;
     w_ref := w_ref init;
     a_ref := a_ref init;
     aa_ref := aa_ref init;
     timestep := timestep init;
     position := position init;
     orientation := orientation init;
     lin_vel := lin_vel init;
     ang_vel := ang_vel init;
     state := state init;
     last_odom := last_odom init |}.

(** The constructor with the flag [only_PD] set either way: the rates are
    those of the source. *)
Definition constructed (only_PD' : bool) : MRAC_Controller :=
  tuned (ki init) (kg init) only_PD'.

(** A waypoint 1000 m to the east, to be reached heading west. *)
Definition waypoint : Point := {| pt_x := 1000; pt_y := 0; pt_z := 180 |}.
End Run.

(** ** [thruster_mapper] over IEEE binary64 *)

Module Binary64.
Import Floats.
Local Open Scope float_scope.

Definition fvec3 : Type := float * float * float.
Definition fmat3N : Type := list float * list float * list float.

(** A row of [P.dot(w)]; numpy leaves the order of the additions open. *)
Definition dot3 (a b : fvec3) : float :=
  let '(a0, a1, a2) := a in let '(b0, b1, b2) := b in a0 * b0 + a1 * b1 + a2 * b2.

(** [np.maximum]: [a] when [a >= b] or [a] is NaN, [b] otherwise. *)
Definition maximum (a b : float) : float :=
  if (b <=? a) || is_nan a then a else b.

(** [np.max], the reduction of an array by [np.maximum]. *)
Definition max (v : list float) : option float :=
  match v with
  | [] => None
  | x :: xs => Some (fold_left maximum xs x)
  end.

Definition min_energy_command (pinv : fmat3N -> list fvec3) (wrench : fvec3) (B : fmat3N)
  : list float :=
  map (fun r => dot3 r wrench) (pinv B).

Definition thruster_mapper (pinv : fmat3N -> list fvec3) (thrust_max : float)
  (wrench : fvec3) (B : fmat3N) : option (list float) :=
  let command := min_energy_command pinv wrench B in
  match max (map abs command) with
  | None => None
  | Some command_max =>
      if thrust_max <? command_max
      then Some (map (fun c => (thrust_max / command_max) * c) command)
      else Some command
  end.

(** Every entry is neither NaN nor infinite. *)
Definition all_finite (v : list float) : bool := forallb is_finite v.

(** A badly scaled mapping, its pseudoinverse and a large wrench: every
    number is finite. *)
Definition B_small : fmat3N :=
  ([0x1p-600; 0; 0; 0], [0; 0x1p-600; 0; 0], [0; 0; 0x1p-600; 0]).
Definition P_small : list fvec3 :=
  [(0x1p+600, 0, 0); (0, 0x1p+600, 0); (0, 0, 0x1p+600); (0, 0, 0)].
Definition wrench_large : fvec3 := (0x1p+600, 0, 0).

(** Three thrusters along the axes and a fourth that contributes nothing,
    as [Run.B0], with the pseudoinverse of that mapping. *)
Definition B_axes : fmat3N := ([1; 0; 0; 0], [0; 1; 0; 0], [0; 0; 1; 0]).
Definition P_axes : list fvec3 := [(1, 0, 0); (0, 1, 0); (0, 0, 1); (0, 0, 0)].
End Binary64.

(** ** The PD wrench of [get_command] and its saturation over IEEE binary64 *)

Module Binary64Tick.
Import Floats.
Local Open Scope float_scope.

Definition fvec2 : Type := float * float.
Definition fvec3 : Type := Binary64.fvec3.
Definition fmat3 : Type := fvec3 * fvec3 * fvec3.

(** [A.T], [A.dot(v)] and [A.dot(B)] on 3x3 arrays. *)
Definition T (m : fmat3) : fmat3 :=
  let '((a00, a01, a02), (a10, a11, a12), (a20, a21, a22)) := m in
  ((a00, a10, a20), (a01, a11, a21), (a02, a12, a22)).
Definition mv (m : fmat3) (v : fvec3) : fvec3 :=
  let '(r0, r1, r2) := m in (Binary64.dot3 r0 v, Binary64.dot3 r1 v, Binary64.dot3 r2 v).
Definition mm (a b : fmat3) : fmat3 :=
  let '(a0, a1, a2) := a in
  let bt := T b in
  (mv bt a0, mv bt a1, mv bt a2).
Definition add (a b : fvec3) : fvec3 :=
  let '(a0, a1, a2) := a in let '(b0, b1, b2) := b in (a0 + b0, a1 + b1, a2 + b2).

(** [np.clip(x, lo, hi)]: [lo] where [x < lo], [hi] where [x > hi] and [x]
    elsewhere.  A NaN is neither below [lo] nor above [hi]: it is
    returned. *)
Definition clip (x lo hi : float) : float :=
  if x <? lo then lo else if hi <? x then hi else x.

(** Lines 238-250 and 260-261, the flag [only_PD] set: the wrench in the
    world frame, from the rotation matrix [R] of the vehicle's orientation
    and the yaw error, both results of tf, the gains, the reference and the
    vehicle state. *)
Definition err (p_ref position : fvec2) (y_err : float) : fvec3 :=
  (fst p_ref - fst position, snd p_ref - snd position, y_err).
Definition pd_wrench (Rm kp_body kd_body : fmat3) (err errdot : fvec3) : fvec3 :=
  let kp := mm (mm Rm kp_body) (T Rm) in
  let kd := mm (mm Rm kd_body) (T Rm) in
  add (mv kp err) (mv kd errdot).

(** Lines 271-272: the wrench in the body frame, forward-right-down. *)
Definition flipped (Rm : fmat3) (wrench : fvec3) : fvec3 :=
  let '(w0, w1, w2) := mv (T Rm) wrench in (w0, - w1, - w2).

(** Lines 275-277: the three components that are published, force x,
    force y and torque z. *)
Definition body_wrench (Rm : fmat3) (wrench : fvec3) : fvec3 :=
  let '(w0, w1, w2) := flipped Rm wrench in
  (clip w0 (-600) 600, clip w1 (-600) 600, clip w2 (-600) 600).

(** The components of a 3-vector, in order. *)
Definition components (v : fvec3) : list float :=
  let '(v0, v1, v2) := v in [v0; v1; v2].

(** The gains of the constructor, and the rotation matrix of a vehicle
    heading along the world x axis. *)
Definition kp_body : fmat3 := ((600, 0, 0), (0, 700, 0), (0, 0, 700)).
Definition kd_body : fmat3 := ((650, 0, 0), (0, 750, 0), (0, 0, 750)).
Definition identity : fmat3 := ((1, 0, 0), (0, 1, 0), (0, 0, 1)).
End Binary64Tick.

(** ** Vocabulary of the further properties *)

(** The controller with another vehicle state and other estimates. *)
Definition with_vehicle (self : MRAC_Controller)
  (position' : vec2) (orientation' : quat) (lin_vel' : vec2) (ang_vel' : R)
  (dist_est' : vec3) (drag_est' : vec5) : MRAC_Controller :=
  {| kp_body := kp_body self;
     kd_body := kd_body self;
     ki := ki self;
     kg := kg self;
     dist_est := dist_est';
     drag_est := drag_est';
     vel_max_body := vel_max_body self;
     heading_threshold := heading_threshold self;
     only_PD := only_PD self;
     mass_ref := mass_ref self;
     inertia_ref := inertia_ref self;
     thrust_max := thrust_max self;
     thruster_positions := thruster_positions self;
     thruster_directions := thruster_directions self;
     lever_arms := lever_arms self;
     B_body := B_body self;
     Fx_max_body := Fx_max_body self;
     Fy_max_body := Fy_max_body self;
     Mz_max_body := Mz_max_body self;
     D_body := D_body self;
     p_des := p_des self;
     q_des := q_des self;
     traversal := traversal self;
     p_ref := p_ref self;
     v_ref := v_ref self;
     q_ref := q_ref self;
     w_ref := w_ref self;
     a_ref := a_ref self;
     aa_ref := aa_ref self;
     timestep := timestep self;
     position := position';
     orientation := orientation';
     lin_vel := lin_vel';
     ang_vel := ang_vel';
     state := state self;
     last_odom := last_odom self |}.

(** The controller with another desired orientation. *)
Definition with_q_des (self : MRAC_Controller) (q_des' : quat) : MRAC_Controller :=
  {| kp_body := kp_body self;
     kd_body := kd_body self;
     ki := ki self;
     kg := kg self;
     dist_est := dist_est self;
     drag_est := drag_est self;
     vel_max_body := vel_max_body self;
     heading_threshold := heading_threshold self;
     only_PD := only_PD self;
     mass_ref := mass_ref self;
     inertia_ref := inertia_ref self;
     thrust_max := thrust_max self;
     thruster_positions := thruster_positions self;
     thruster_directions := thruster_directions self;
     lever_arms := lever_arms self;
     B_body := B_body self;
     Fx_max_body := Fx_max_body self;
     Fy_max_body := Fy_max_body self;
     Mz_max_body := Mz_max_body self;
     D_body := D_body self;
     p_des := p_des self;
     q_des := q_des';
     traversal := traversal self;
     p_ref := p_ref self;
     v_ref := v_ref self;
     q_ref := q_ref self;
     w_ref := w_ref self;
     a_ref := a_ref self;
     aa_ref := aa_ref self;
     timestep := timestep self;
     position := position self;
     orientation := orientation self;
     lin_vel := lin_vel self;
     ang_vel := ang_vel self;
     state := state self;
     last_odom := last_odom self |}.

(** The message with another stamp. *)
Definition restamp (t : Time) (msg : Odometry) : Odometry :=
  {| header_stamp := t;
     pose_position := pose_position msg;
     pose_orientation := pose_orientation msg;
     twist_linear := twist_linear msg;
     twist_angular := twist_angular msg |}.

(** The state of the reference model. *)
Definition reference_state (self : MRAC_Controller)
  : vec2 * vec2 * quat * R * vec2 * R :=
  (p_ref self, v_ref self, q_ref self, w_ref self, a_ref self, aa_ref self).

(** The fields no callback assigns: the tunables, the reference model's
    constants and the attribute [state]. *)
Definition same_configuration (a b : MRAC_Controller) : Prop :=
  kp_body b = kp_body a /\
  kd_body b = kd_body a /\
  ki b = ki a /\
  kg b = kg a /\
  vel_max_body b = vel_max_body a /\
  heading_threshold b = heading_threshold a /\
  only_PD b = only_PD a /\
  mass_ref b = mass_ref a /\
  inertia_ref b = inertia_ref a /\
  thrust_max b = thrust_max a /\
  thruster_positions b = thruster_positions a /\
  thruster_directions b = thruster_directions a /\
  lever_arms b = lever_arms a /\
  B_body b = B_body a /\
  Fx_max_body b = Fx_max_body a /\
  Fy_max_body b = Fy_max_body a /\
  Mz_max_body b = Mz_max_body a /\
  D_body b = D_body a /\
  state b = state a.

Section Callbacks.

Context {tf : trns.Transformations} {la : npl.Linalg}.

(** The body-frame twist and the drag of the virtual boat, as
    [increment_reference] computes them. *)
Definition ref_twist_body (self : MRAC_Controller) : vec3 :=
  M3.mv (M3.T (R_ref self)) (V3.concat (v_ref self) (w_ref self)).
Definition ref_drag (self : MRAC_Controller) : vec3 :=
  M3.mv (R_ref self)
    (V3.mul (V3.mul (D_body self) (ref_twist_body self)) (V3.abs (ref_twist_body self))).

(** The wrench a tick publishes, if it completes. *)
Definition published_wrench (msg : Odometry) (self : MRAC_Controller)
  : option WrenchStamped :=
  option_map (fun r => snd (fst r)) (get_command msg self).

(** One completed callback: the two subscriptions of the constructor,
    [/set_desired_pose] to [set_waypoint] and [/odom] to [get_command]. *)
Inductive callback : MRAC_Controller -> MRAC_Controller -> Prop :=
| on_waypoint (msg : Point) (self : MRAC_Controller) :
    callback self (fst (set_waypoint msg self))
| on_odom (msg : Odometry) (self self' : MRAC_Controller)
    (w : WrenchStamped) (p : PoseStamped) :
    get_command msg self = Some (self', w, p) -> callback self self'.

(** Any number of completed callbacks, one after the other. *)
Inductive spin : MRAC_Controller -> MRAC_Controller -> Prop :=
| spin_done (self : MRAC_Controller) : spin self self
| spin_next (self1 self2 self3 : MRAC_Controller) :
    callback self1 self2 -> spin self2 self3 -> spin self1 self3.

End Callbacks.

(** A waypoint at the origin with heading 0 degrees. *)
Definition origin : Point := {| pt_x := 0; pt_y := 0; pt_z := 0 |}.

(** An odometry message of a vehicle at the origin, heading along the
    world x axis and moving forward at 1 m/s. *)
Definition cruising (t : Time) : Odometry :=
  {| header_stamp := t;
     pose_position := {| pt_x := 0; pt_y := 0; pt_z := 0 |};
     pose_orientation := {| qt_x := 0; qt_y := 0; qt_z := 0; qt_w := 1 |};
     twist_linear := {| v3_x := 1; v3_y := 0; v3_z := 0 |};
     twist_angular := {| v3_x := 0; v3_y := 0; v3_z := 0 |} |}.

(** * Properties *)

(** ** [np.max] *)

Lemma fold_left_Rmax_init (xs : list R) (x : R) : x <= fold_left Rmax xs x.
Proof.
  revert x; induction xs as [|y ys IH]; intros x; simpl.
  - lra.
  - apply Rle_trans with (Rmax x y); [apply Rmax_l | apply IH].
Qed.

Lemma fold_left_Rmax_ub (xs : list R) (x : R) :
  Forall (fun c => c <= fold_left Rmax xs x) xs.
Proof.
  revert x; induction xs as [|y ys IH]; intros x; simpl; constructor.
  - apply Rle_trans with (Rmax x y); [apply Rmax_r | apply fold_left_Rmax_init].
  - apply IH.
Qed.

Lemma fold_left_Rmax_in (xs : list R) (x : R) : In (fold_left Rmax xs x) (x :: xs).
Proof.
  revert x; induction xs as [|y ys IH]; intros x; simpl.
  - now left.
  - destruct (IH (Rmax x y)) as [H | H].
    + unfold Rmax in H at 1. destruct (Rle_dec x y); [right; left | left]; exact H.
    + right; right; exact H.
Qed.

Lemma np_max_ub (v : list R) (m : R) : np.max v = Some m -> Forall (fun c => c <= m) v.
Proof.
  destruct v as [|x xs]; simpl; intros H; inversion H; subst.
  constructor; [apply fold_left_Rmax_init | apply fold_left_Rmax_ub].
Qed.

Lemma np_max_in (v : list R) (m : R) : np.max v = Some m -> In m v.
Proof.
  destruct v as [|x xs]; simpl; intros H; inversion H; subst.
  apply fold_left_Rmax_in.
Qed.

Lemma np_max_some (v : list R) : v <> [] -> exists m, np.max v = Some m.
Proof. destruct v as [|x xs]; [congruence | intros _; simpl; eauto]. Qed.

Lemma Rmax_scale (k a b : R) : 0 <= k -> Rmax (k * a) (k * b) = k * Rmax a b.
Proof.
  intros Hk. unfold Rmax.
  destruct (Rle_dec a b) as [Hab | Hab], (Rle_dec (k * a) (k * b)) as [H | H];
    try reflexivity; nra.
Qed.

Lemma fold_left_Rmax_scale (k : R) (xs : list R) (x : R) :
  0 <= k -> fold_left Rmax (map (Rmult k) xs) (k * x) = k * fold_left Rmax xs x.
Proof.
  intros Hk. revert x; induction xs as [|y ys IH]; intros x; simpl.
  - reflexivity.
  - rewrite Rmax_scale by exact Hk. apply IH.
Qed.

Lemma np_max_scale (k : R) (v : list R) (m : R) :
  0 <= k -> np.max v = Some m -> np.max (map (Rmult k) v) = Some (k * m).
Proof.
  intros Hk. destruct v as [|x xs]; simpl; intros H; inversion H; subst.
  now rewrite fold_left_Rmax_scale.
Qed.

Lemma map_Rabs_scale (k : R) (v : list R) :
  0 <= k -> map Rabs (np.scale k v) = map (Rmult k) (map Rabs v).
Proof.
  intros Hk. unfold np.scale. rewrite !map_map. apply map_ext.
  intros c. rewrite Rabs_mult, (Rabs_pos_eq k) by exact Hk. reflexivity.
Qed.

Lemma max_abs_nonneg (v : list R) (m : R) : np.max (map Rabs v) = Some m -> 0 <= m.
Proof.
  intros H. apply np_max_in in H. apply in_map_iff in H as [c [<- _]]. apply Rabs_pos.
Qed.

Lemma within_iff_max (t : R) (v : list R) (m : R) :
  np.max (map Rabs v) = Some m -> (Alloc.within t v <-> m <= t).
Proof.
  intros H. unfold Alloc.within. split.
  - intros Hw. apply np_max_in in H. apply in_map_iff in H as [c [<- Hc]].
    rewrite Forall_forall in Hw. now apply Hw.
  - intros Hm. apply np_max_ub in H. rewrite Forall_forall in *.
    intros c Hc. apply Rle_trans with m; [|exact Hm].
    apply H. now apply in_map.
Qed.

(** ** [thruster_mapper] *)

Section AllocatorFacts.

Context {la : npl.Linalg}.

(** The routine fails exactly on a mapping without thrusters. *)
Lemma thruster_mapper_None (self : MRAC_Controller) (wrench : vec3) (B : mat3N) :
  thruster_mapper self wrench B = None <-> npl.pinv B = [].
Proof.
  unfold thruster_mapper, min_energy_command, np.mv_N3.
  destruct (npl.pinv B) as [|p P]; simpl.
  - tauto.
  - split; [|discriminate].
    destruct (Rlt_dec _ _); discriminate.
Qed.

(** Within the envelope the command is returned as solved. *)
Lemma thruster_mapper_unscaled
  (self : MRAC_Controller) (wrench : vec3) (B : mat3N) (command_max : R) :
  np.max (map Rabs (min_energy_command wrench B)) = Some command_max ->
  command_max <= thrust_max self ->
  thruster_mapper self wrench B = Some (min_energy_command wrench B).
Proof.
  intros Hm Hle. unfold thruster_mapper. rewrite Hm.
  destruct (Rlt_dec _ _); [lra | reflexivity].
Qed.

(** Beyond the envelope the command is scaled back. *)
Lemma thruster_mapper_scaled
  (self : MRAC_Controller) (wrench : vec3) (B : mat3N) (command_max : R) :
  np.max (map Rabs (min_energy_command wrench B)) = Some command_max ->
  thrust_max self < command_max ->
  thruster_mapper self wrench B =
    Some (np.scale (thrust_max self / command_max) (min_energy_command wrench B)).
Proof.
  intros Hm Hlt. unfold thruster_mapper. rewrite Hm.
  destruct (Rlt_dec _ _); [reflexivity | lra].
Qed.

(** Saturation in exact arithmetic.  For every wrench and every mapping
    with at least one thruster, each entry of the returned command has
    absolute value at most [thrust_max] (a thrust limit is not negative).
    When the largest absolute entry [command_max] of the minimum-energy
    solution exceeds [thrust_max], the returned command is that solution
    times [thrust_max / command_max], a factor in [0, 1) (positive for a
    positive limit, so the direction is kept), and its largest absolute
    entry is [thrust_max]. *)
Lemma saturation_exact (self : MRAC_Controller) (wrench : vec3) (B : mat3N) :
  0 <= thrust_max self ->
  npl.pinv B <> [] ->
  exists command command_max,
    np.max (map Rabs (min_energy_command wrench B)) = Some command_max /\
    thruster_mapper self wrench B = Some command /\
    Alloc.within (thrust_max self) command /\
    (thrust_max self < command_max ->
       command = np.scale (thrust_max self / command_max) (min_energy_command wrench B) /\
       0 <= thrust_max self / command_max < 1 /\
       (0 < thrust_max self -> 0 < thrust_max self / command_max) /\
       np.max (map Rabs command) = Some (thrust_max self)).
Proof.
  intros Ht HP.
  destruct (np_max_some (map Rabs (min_energy_command wrench B))) as [m Hm].
  { unfold min_energy_command, np.mv_N3.
    destruct (npl.pinv B); [congruence | discriminate]. }
  destruct (Rlt_dec (thrust_max self) m) as [Hlt | Hge].
  - assert (Hm0 : 0 < m) by lra.
    assert (Hk : 0 <= thrust_max self / m < 1).
    { split.
      - unfold Rdiv. apply Rmult_le_pos; [exact Ht | left; now apply Rinv_0_lt_compat].
      - apply Rmult_lt_reg_r with m; [exact Hm0|]. field_simplify; lra. }
    assert (Hmax : np.max (map Rabs (np.scale (thrust_max self / m)
                     (min_energy_command wrench B))) = Some (thrust_max self)).
    { rewrite map_Rabs_scale by apply Hk.
      rewrite (np_max_scale _ _ m) by (apply Hk || exact Hm).
      f_equal. field. lra. }
    exists (np.scale (thrust_max self / m) (min_energy_command wrench B)), m.
    split; [exact Hm|]. split; [now apply thruster_mapper_scaled|].
    split; [apply (within_iff_max _ _ _ Hmax); lra|].
    intros _. split; [reflexivity|]. split; [exact Hk|]. split; [|exact Hmax].
    intros Hpos. unfold Rdiv. apply Rmult_lt_0_compat; [exact Hpos | now apply Rinv_0_lt_compat].
  - exists (min_energy_command wrench B), m.
    split; [exact Hm|]. split; [apply thruster_mapper_unscaled with m; [exact Hm | lra]|].
    split; [apply (within_iff_max _ _ _ Hm); lra | intros; lra].
Qed.

End AllocatorFacts.

(** ** The achieved wrench *)

Lemma dot_comm (u v : list R) : np.dot u v = np.dot v u.
Proof.
  revert v; induction u as [|a u IH]; intros [|b v]; simpl; try reflexivity.
  rewrite IH. ring.
Qed.

(** [b.dot(P.dot(w)) = (b.dot(P)).dot(w)]. *)
Lemma dot_mv_N3 (b : list R) (P : list vec3) (w : vec3) :
  np.dot b (np.mv_N3 P w) =
  V3.dot (np.dot b (map V3.i0 P), np.dot b (map V3.i1 P), np.dot b (map V3.i2 P)) w.
Proof.
  destruct w as [[w0 w1] w2].
  revert b; induction P as [|[[p0 p1] p2] P IH]; intros [|x b]; simpl; try ring.
  rewrite IH. simpl. ring.
Qed.

(** [B.dot(P.dot(w)) = (B.dot(P)).dot(w)]. *)
Lemma mv_3N_mv_N3 (B : mat3N) (P : list vec3) (w : vec3) :
  np.mv_3N B (np.mv_N3 P w) = M3.mv (Alloc.BP B P) w.
Proof.
  destruct B as [[b0 b1] b2]. unfold Alloc.BP, np.mv_3N, np.T, M3.mv. simpl.
  rewrite !dot_mv_N3, !(dot_comm (map _ P)). reflexivity.
Qed.

Lemma length_scale (s : R) (v : list R) : length (np.scale s v) = length v.
Proof. apply length_map. Qed.

Lemma nth_scale (s : R) (v : list R) (k : nat) :
  nth k (np.scale s v) 0 = s * nth k v 0.
Proof.
  unfold np.scale. replace 0 with (s * 0) at 1 by ring. apply map_nth.
Qed.

Lemma length_add (u v : list R) :
  length u = length v -> length (np.add u v) = length u.
Proof.
  revert v; induction u as [|a u IH]; intros [|b v]; simpl; try congruence.
  intros H. f_equal. apply IH. congruence.
Qed.

Lemma nth_add (u v : list R) (k : nat) :
  length u = length v -> nth k (np.add u v) 0 = nth k u 0 + nth k v 0.
Proof.
  revert v k; induction u as [|a u IH]; intros [|b v] k; simpl; try discriminate.
  - intros _. destruct k; ring.
  - intros H. destruct k; [reflexivity | apply IH; congruence].
Qed.

(** An entry of a row of [A.dot(X)]. *)
Lemma nth_row_mm (a : vec3) (X : mat3N) (N k : nat) :
  Alloc.shape_3N X N ->
  nth k (np.row_mm a X) 0 =
  V3.i0 a * nth k (fst (fst X)) 0 + V3.i1 a * nth k (snd (fst X)) 0
  + V3.i2 a * nth k (snd X) 0.
Proof.
  destruct a as [[a0 a1] a2], X as [[x0 x1] x2]. simpl.
  intros (H0 & H1 & H2).
  assert (L : length (np.add (np.scale a0 x0) (np.scale a1 x1)) = N).
  { rewrite length_add; rewrite !length_scale; congruence. }
  rewrite nth_add by (rewrite L, length_scale; congruence).
  rewrite nth_add by (rewrite !length_scale; congruence).
  rewrite !nth_scale. reflexivity.
Qed.

Lemma length_row_mm (a : vec3) (X : mat3N) (N : nat) :
  Alloc.shape_3N X N -> length (np.row_mm a X) = N.
Proof.
  destruct a as [[a0 a1] a2], X as [[x0 x1] x2]. simpl.
  intros (H0 & H1 & H2).
  assert (L : length (np.add (np.scale a0 x0) (np.scale a1 x1)) = N).
  { rewrite length_add; rewrite !length_scale; congruence. }
  rewrite length_add; [exact L | rewrite L, length_scale; congruence].
Qed.

(** A mapping of full row rank has a thruster. *)
Lemma full_row_rank_nonempty (B : mat3N) (N : nat) :
  Alloc.shape_3N B N -> Alloc.full_row_rank B -> N <> 0%nat.
Proof.
  intros Hs Hr ->. destruct B as [[b0 b1] b2]. destruct Hs as (H0 & H1 & H2).
  apply length_zero_iff_nil in H0, H1, H2. subst.
  specialize (Hr (1, 0, 0)). simpl in Hr.
  assert (H : (1, 0, 0) = (0, 0, 0)) by (apply Hr; intros [|k]; reflexivity).
  inversion H. lra.
Qed.

(** A combination of the rows that reproduces row [i] of a mapping of
    full row rank is the unit vector [e_i]. *)
Lemma row_mm_unit (B : mat3N) (N : nat) (a e : vec3) (b : list R) :
  Alloc.shape_3N B N -> Alloc.full_row_rank B ->
  np.row_mm a B = b -> np.row_mm e B = b -> a = e.
Proof.
  intros Hs Hr Ha He.
  assert (H : V3.sub a e = (0, 0, 0)).
  { apply Hr. intros k.
    rewrite (nth_row_mm _ _ N) by exact Hs.
    assert (Hk : nth k (np.row_mm a B) 0 = nth k (np.row_mm e B) 0) by congruence.
    rewrite !(nth_row_mm _ _ N) in Hk by exact Hs.
    destruct a as [[a0 a1] a2], e as [[e0 e1] e2]. simpl in *. lra. }
  destruct a as [[a0 a1] a2], e as [[e0 e1] e2]. simpl in H.
  inversion H. repeat f_equal; lra.
Qed.

Lemma row_mm_e0 (B : mat3N) (N : nat) :
  Alloc.shape_3N B N -> np.row_mm (1, 0, 0) B = fst (fst B).
Proof.
  intros Hs. apply nth_ext with (d := 0) (d' := 0).
  - rewrite (length_row_mm _ _ N) by exact Hs.
    destruct B as [[b0 b1] b2]; simpl in *; symmetry; tauto.
  - intros k _. rewrite (nth_row_mm _ _ N) by exact Hs. simpl. ring.
Qed.

Lemma row_mm_e1 (B : mat3N) (N : nat) :
  Alloc.shape_3N B N -> np.row_mm (0, 1, 0) B = snd (fst B).
Proof.
  intros Hs. apply nth_ext with (d := 0) (d' := 0).
  - rewrite (length_row_mm _ _ N) by exact Hs.
    destruct B as [[b0 b1] b2]; simpl in *; symmetry; tauto.
  - intros k _. rewrite (nth_row_mm _ _ N) by exact Hs. simpl. ring.
Qed.

Lemma row_mm_e2 (B : mat3N) (N : nat) :
  Alloc.shape_3N B N -> np.row_mm (0, 0, 1) B = snd B.
Proof.
  intros Hs. apply nth_ext with (d := 0) (d' := 0).
  - rewrite (length_row_mm _ _ N) by exact Hs.
    destruct B as [[b0 b1] b2]; simpl in *; symmetry; tauto.
  - intros k _. rewrite (nth_row_mm _ _ N) by exact Hs. simpl. ring.
Qed.

(** For a mapping of full row rank the pseudoinverse is a right inverse. *)
Lemma pinv_right_inverse (B : mat3N) (P : list vec3) :
  Alloc.full_row_rank B -> Alloc.is_pinv B P ->
  Alloc.BP B P = ((1, 0, 0), (0, 1, 0), (0, 0, 1)).
Proof.
  intros Hr (Hs & H1 & _).
  destruct (Alloc.BP B P) as [[r0 r1] r2].
  destruct B as [[b0 b1] b2]. unfold np.mm_3N in H1.
  injection H1 as E0 E1 E2.
  f_equal; [f_equal|].
  - apply (row_mm_unit (b0, b1, b2) (length P) _ _ b0 Hs Hr E0).
    apply (row_mm_e0 _ _ Hs).
  - apply (row_mm_unit (b0, b1, b2) (length P) _ _ b1 Hs Hr E1).
    apply (row_mm_e1 _ _ Hs).
  - apply (row_mm_unit (b0, b1, b2) (length P) _ _ b2 Hs Hr E2).
    apply (row_mm_e2 _ _ Hs).
Qed.

(** Rows 0, 1 and 5 of [B.dot(command)] are [B_3dof.dot(command)]. *)
Lemma B_3dof_mv (B : mat6N) (command : list R) :
  np.mv_3N (B_3dof B) command =
  (V6.i0 (np.mv_6N B command), V6.i1 (np.mv_6N B command), V6.i5 (np.mv_6N B command)).
Proof. destruct B as [[[b0 b1] b2] [[b3 b4] b5]]. reflexivity. Qed.

Section Achieved.

Context {la : npl.Linalg}.

(** C1.  Let [B] be a 3xN mapping of full row rank and [npl.pinv(B)] its
    Moore-Penrose pseudoinverse.  For every wrench whose minimum-energy
    command [pinv(B).dot(wrench)] has every entry of absolute value at
    most [thrust_max], [thruster_mapper] returns that command unscaled,
    and the achieved wrench [B.dot(command)] is the requested wrench. *)
Theorem thruster_mapper_achieves (self : MRAC_Controller) (wrench : vec3) (B : mat3N) :
  Alloc.full_row_rank B ->
  Alloc.is_pinv B (npl.pinv B) ->
  Alloc.within (thrust_max self) (min_energy_command wrench B) ->
  thruster_mapper self wrench B = Some (min_energy_command wrench B) /\
  np.mv_3N B (min_energy_command wrench B) = wrench.
Proof.
  intros Hr Hp Hw. split.
  - destruct (np_max_some (map Rabs (min_energy_command wrench B))) as [m Hm].
    { destruct Hp as (Hs & _).
      pose proof (full_row_rank_nonempty _ _ Hs Hr) as HN.
      unfold min_energy_command, np.mv_N3.
      destruct (npl.pinv B); [now elim HN | discriminate]. }
    apply thruster_mapper_unscaled with m; [exact Hm|].
    now apply (within_iff_max _ _ _ Hm).
  - unfold min_energy_command. rewrite mv_3N_mv_N3.
    rewrite (pinv_right_inverse _ _ Hr Hp).
    destruct wrench as [[w0 w1] w2]. simpl. repeat f_equal; ring.
Qed.

End Achieved.

(** ** The callbacks *)

(** Equality of tuples, entry by entry. *)
Ltac entrywise :=
  repeat match goal with |- (_, _) = (_, _) => apply f_equal2 end.

(** Opens a successful [increment_reference] or [get_command]. *)
Ltac open_step H :=
  unfold increment_reference in H;
  match type of H with
  | context [thruster_mapper ?s ?w ?b] =>
      let command := fresh "command" in
      let Hcmd := fresh "Hcmd" in
      destruct (thruster_mapper s w b) as [command|] eqn:Hcmd;
      [injection H as H; try subst | discriminate H]
  end.

Ltac open_tick H :=
  unfold get_command in H;
  match type of H with
  | context [increment_reference ?s] =>
      let self3 := fresh "self3" in
      let Hstep := fresh "Hstep" in
      destruct (increment_reference s) as [self3|] eqn:Hstep;
      [injection H as H ?Hw ?Hp; try subst; open_step Hstep | discriminate H]
  end.

Lemma clip_bounds (x lo hi : R) : lo <= hi -> lo <= np.clip x lo hi <= hi.
Proof.
  intros H. unfold np.clip, Rmin, Rmax.
  destruct (Rle_dec x lo), (Rle_dec hi _); lra.
Qed.

Lemma sub_to_sec_nsec (a b : Time) :
  rospy.sub_to_sec a b = IZR (rospy.to_nsec a - rospy.to_nsec b) / 1000000000.
Proof.
  unfold rospy.sub_to_sec.
  set (d := (rospy.to_nsec a - rospy.to_nsec b)%Z).
  rewrite (Z.div_mod d 1000000000) at 3 by lia.
  rewrite plus_IZR, mult_IZR. field.
Qed.

Section Tick.

Context {tf : trns.Transformations} {la : npl.Linalg}.

(** The reference step fails exactly when the allocator does. *)
Lemma increment_reference_None (self : MRAC_Controller) :
  increment_reference self = None <->
  npl.pinv (B_3dof (ref_B self)) = [].
Proof.
  unfold increment_reference. rewrite <- (thruster_mapper_None self (ref_wrench self)).
  destruct (thruster_mapper _ _ _); split; congruence.
Qed.

(** A tick completes whenever the mapping has a thruster. *)
Lemma get_command_Some (msg : Odometry) (self : MRAC_Controller) :
  npl.pinv (B_3dof (ref_B (update_estimates (unpack msg self)))) <> [] ->
  exists self' w p, get_command msg self = Some (self', w, p).
Proof.
  intros H. unfold get_command.
  destruct (increment_reference _) as [s|] eqn:E.
  - eauto.
  - apply increment_reference_None in E. contradiction.
Qed.

(** A completed tick is a completed reference step, after the message is
    unpacked and the estimates are updated. *)
Lemma get_command_step
  (msg : Odometry) (self self' : MRAC_Controller) (w : WrenchStamped) (p : PoseStamped) :
  get_command msg self = Some (self', w, p) ->
  increment_reference (update_estimates (unpack msg self)) = Some self' /\
  w = wrench_msg (body_wrench (unpack msg self) (world_wrench (unpack msg self))) /\
  p = pose_ref_msg msg self'.
Proof.
  unfold get_command. destruct (increment_reference _) as [s|]; [|discriminate].
  intros H. injection H as -> <- <-. auto.
Qed.

(** The timestep a tick leaves behind is the one it computed. *)
Lemma get_command_timestep
  (msg : Odometry) (self self' : MRAC_Controller) (w : WrenchStamped) (p : PoseStamped) :
  get_command msg self = Some (self', w, p) ->
  timestep self' = odom_timestep msg self /\ last_odom self' = Some msg.
Proof.
  intros H. open_tick H. split; reflexivity.
Qed.

(** What a reference step leaves alone. *)
Lemma increment_reference_frame (self self' : MRAC_Controller) :
  increment_reference self = Some self' ->
  dist_est self' = dist_est self /\ drag_est self' = drag_est self /\
  ki self' = ki self /\ kg self' = kg self /\ only_PD self' = only_PD self /\
  timestep self' = timestep self /\ last_odom self' = last_odom self /\
  p_des self' = p_des self /\ q_des self' = q_des self /\
  thrust_max self' = thrust_max self /\
  thruster_directions self' = thruster_directions self /\
  lever_arms self' = lever_arms self.
Proof.
  intros H. open_step H. simpl. tauto.
Qed.

(** The reference orientation after a step. *)
Lemma increment_reference_q_ref (self self' : MRAC_Controller) :
  increment_reference self = Some self' ->
  q_ref self' = trns.quaternion_from_euler 0 0 (y_ref self + w_ref self * timestep self).
Proof.
  intros H. open_step H. reflexivity.
Qed.

Lemma body_wrench_bounds (self : MRAC_Controller) (wrench : vec3) :
  -600 <= V3.i0 (body_wrench self wrench) <= 600 /\
  -600 <= V3.i1 (body_wrench self wrench) <= 600 /\
  -600 <= V3.i2 (body_wrench self wrench) <= 600.
Proof.
  unfold body_wrench.
  destruct (M3.mv (M3.T (frame_R (orientation self))) wrench) as [[w0 w1] w2].
  cbn [V3.i0 V3.i1 V3.i2].
  repeat split; apply clip_bounds; lra.
Qed.

(** In exact arithmetic, the wrench a tick publishes has its three
    components, force x, force y and torque z, within [-600, 600]. *)
Lemma wrench_bounds_exact
  (msg : Odometry) (self self' : MRAC_Controller) (w : WrenchStamped) (p : PoseStamped) :
  get_command msg self = Some (self', w, p) ->
  -600 <= v3_x (ws_force w) <= 600 /\
  -600 <= v3_y (ws_force w) <= 600 /\
  -600 <= v3_z (ws_torque w) <= 600.
Proof.
  intros H. open_tick H.
  cbn [wrench_msg ws_force ws_torque v3_x v3_y v3_z].
  apply body_wrench_bounds.
Qed.

(** C9.  A tick adds [ki * err * dt] to the disturbance estimate, entry by
    entry: [err] is the tracking error of this tick, the reference
    position minus the position of the message and the yaw of the
    rotation from the message's orientation to the reference orientation,
    and [dt] is the timestep of this tick. *)
Theorem dist_est_integrates_error
  (msg : Odometry) (self self' : MRAC_Controller) (w : WrenchStamped) (p : PoseStamped) :
  get_command msg self = Some (self', w, p) ->
  let dt := odom_timestep msg self in
  let p_err :=
    V2.sub (p_ref self) (pt_x (pose_position msg), pt_y (pose_position msg)) in
  let y_err :=
    V3.i2 (trns.euler_from_quaternion
             (trns.quaternion_multiply (q_ref self)
                (trns.quaternion_inverse (odom_orientation msg)))) in
  let err := V3.concat p_err y_err in
  dist_est self' = V3.add (dist_est self) (V3.scale (V3.mul (ki self) err) dt) /\
  V3.sub (dist_est self') (dist_est self) =
    (V3.i0 (ki self) * V3.i0 err * dt,
     V3.i1 (ki self) * V3.i1 err * dt,
     V3.i2 (ki self) * V3.i2 err * dt).
Proof.
  intros H dt p_err y_err err0. apply get_command_step in H as (Hstep & _).
  apply increment_reference_frame in Hstep as (Hd & _).
  assert (E : dist_est self' =
              V3.add (dist_est self) (V3.scale (V3.mul (ki self) err0) dt))
    by (rewrite Hd; reflexivity).
  rewrite E. split; [reflexivity|]. clearbody err0 dt.
  destruct (dist_est self) as [[d0 d1] d2], (ki self) as [[k0 k1] k2],
    err0 as [[e0 e1] e2].
  simpl. entrywise; ring.
Qed.

End Tick.

Section TickClaims.

Context {tf : trns.Transformations} {la : npl.Linalg}.

(** C4 (as the code has it).  There is no clamp on the timestep.  For
    every state update after the first, the timestep of the tick, read by
    the estimator updates and by the Euler step of the reference model, is
    the stamp of the incoming message minus the stamp of the previous one,
    in seconds; it is strictly positive exactly when the incoming stamp is
    strictly later. *)
Theorem timestep_is_stamp_difference
  (msg last : Odometry) (self self' : MRAC_Controller)
  (w : WrenchStamped) (p : PoseStamped) :
  last_odom self = Some last ->
  get_command msg self = Some (self', w, p) ->
  let dt :=
    IZR (rospy.to_nsec (header_stamp msg) - rospy.to_nsec (header_stamp last))
    / 1000000000 in
  timestep (unpack msg self) = dt /\
  timestep (update_estimates (unpack msg self)) = dt /\
  timestep self' = dt /\
  (0 < dt <-> (rospy.to_nsec (header_stamp last) < rospy.to_nsec (header_stamp msg))%Z).
Proof.
  intros Hlast H dt. apply get_command_step in H as (Hstep & _).
  apply increment_reference_frame in Hstep as (_ & _ & _ & _ & _ & Ht & _).
  assert (E : timestep (unpack msg self) = dt).
  { cbn [unpack timestep]. unfold odom_timestep. rewrite Hlast.
    apply sub_to_sec_nsec. }
  repeat split.
  - exact E.
  - exact E.
  - rewrite Ht. exact E.
  - intros Hpos. unfold dt in Hpos.
    apply Z.lt_0_sub. apply lt_IZR.
    apply Rmult_lt_reg_r with (/ 1000000000); [lra|].
    unfold Rdiv in Hpos. lra.
  - intros Hlt. unfold dt. apply Z.lt_0_sub in Hlt. apply IZR_lt in Hlt.
    unfold Rdiv. apply Rmult_lt_0_compat; lra.
Qed.

(** C5.  The reference step aims at a heading target chosen by distance:
    beyond [heading_threshold] from the desired position, the target is the
    heading [arctan2(dy, dx)] of the line from the reference position to
    the goal; at [heading_threshold] or closer it is the stored desired
    orientation [q_des].  The yaw error of the step's wrench is the yaw of
    the rotation from the reference orientation to that target. *)
Theorem smart_yaw_heading_target (self : MRAC_Controller) :
  let dx := fst (p_des self) - fst (p_ref self) in
  let dy := snd (p_des self) - snd (p_ref self) in
  let distance := sqrt (dx * dx + dy * dy) in
  let kp := M3.mm (M3.mm (R_ref self) (kp_body self)) (M3.T (R_ref self)) in
  let kd := M3.mm (M3.mm (R_ref self) (kd_body self)) (M3.T (R_ref self)) in
  exists target : quat,
    (heading_threshold self < distance ->
       target = trns.quaternion_from_euler 0 0 (np.arctan2 dy dx)) /\
    (distance <= heading_threshold self -> target = q_des self) /\
    ref_q_err self =
      trns.quaternion_multiply target (trns.quaternion_inverse (q_ref self)) /\
    ref_wrench self =
      V3.add
        (M3.mv kp
           (dx, dy,
            V3.i2 (trns.euler_from_quaternion
                     (trns.quaternion_multiply target
                        (trns.quaternion_inverse (q_ref self))))))
        (M3.mv kd (- fst (v_ref self), - snd (v_ref self), - w_ref self)).
Proof.
  intros dx dy distance kp kd.
  assert (Hw : forall target,
    ref_q_err self =
      trns.quaternion_multiply target (trns.quaternion_inverse (q_ref self)) ->
    ref_wrench self =
      V3.add
        (M3.mv kp
           (dx, dy,
            V3.i2 (trns.euler_from_quaternion
                     (trns.quaternion_multiply target
                        (trns.quaternion_inverse (q_ref self))))))
        (M3.mv kd (- fst (v_ref self), - snd (v_ref self), - w_ref self))).
  { intros target E. unfold ref_wrench. rewrite E. fold kp kd.
    subst dx dy. destruct (p_des self), (p_ref self), (v_ref self). reflexivity. }
  assert (Hn : npl.norm (V2.sub (p_des self) (p_ref self)) = distance).
  { subst distance dx dy. destruct (p_des self), (p_ref self). reflexivity. }
  assert (Hxy : V2.sub (p_des self) (p_ref self) = (dx, dy)).
  { subst dx dy. destruct (p_des self), (p_ref self). reflexivity. }
  destruct (Rle_dec distance (heading_threshold self)) as [Hle | Hgt].
  - exists (q_des self).
    assert (E : ref_q_err self =
      trns.quaternion_multiply (q_des self) (trns.quaternion_inverse (q_ref self))).
    { unfold ref_q_err. rewrite Hn. destruct (Rle_dec _ _); [reflexivity | contradiction]. }
    repeat split; [intros; lra | exact E | exact (Hw _ E)].
  - exists (trns.quaternion_from_euler 0 0 (np.arctan2 dy dx)).
    assert (E : ref_q_err self =
      trns.quaternion_multiply (trns.quaternion_from_euler 0 0 (np.arctan2 dy dx))
        (trns.quaternion_inverse (q_ref self))).
    { unfold ref_q_err. rewrite Hn, Hxy.
      destruct (Rle_dec _ _); [contradiction | reflexivity]. }
    repeat split; [intros; lra | exact E | exact (Hw _ E)].
Qed.

(** C6.  [set_waypoint] replaces the desired pose by the commanded one,
    resets the reference position, velocity, orientation and angular
    velocity to the vehicle's current ones, zeroes both reference
    accelerations and records the straight-line distance from the current
    position to the new desired position; the estimates [dist_est] and
    [drag_est] and every other field keep their values. *)
Theorem set_waypoint_resets_reference (msg : Point) (self : MRAC_Controller) :
  let self' := fst (set_waypoint msg self) in
  (p_des self' = (pt_x msg, pt_y msg) /\
   q_des self' = trns.quaternion_from_euler 0 0 (pt_z msg * (PI / 180))) /\
  (p_ref self' = position self /\ v_ref self' = lin_vel self /\
   q_ref self' = orientation self /\ w_ref self' = ang_vel self) /\
  (a_ref self' = (0, 0) /\ aa_ref self' = 0) /\
  traversal self' =
    sqrt ((pt_x msg - fst (position self)) * (pt_x msg - fst (position self))
          + (pt_y msg - snd (position self)) * (pt_y msg - snd (position self))) /\
  (dist_est self' = dist_est self /\ drag_est self' = drag_est self) /\
  (kp_body self' = kp_body self /\ kd_body self' = kd_body self /\
   ki self' = ki self /\ kg self' = kg self /\
   vel_max_body self' = vel_max_body self /\
   heading_threshold self' = heading_threshold self /\
   only_PD self' = only_PD self /\
   mass_ref self' = mass_ref self /\ inertia_ref self' = inertia_ref self /\
   thrust_max self' = thrust_max self /\
   thruster_positions self' = thruster_positions self /\
   thruster_directions self' = thruster_directions self /\
   lever_arms self' = lever_arms self /\ B_body self' = B_body self /\
   Fx_max_body self' = Fx_max_body self /\ Fy_max_body self' = Fy_max_body self /\
   Mz_max_body self' = Mz_max_body self /\ D_body self' = D_body self /\
   timestep self' = timestep self /\
   position self' = position self /\ orientation self' = orientation self /\
   lin_vel self' = lin_vel self /\ ang_vel self' = ang_vel self /\
   state self' = state self /\ last_odom self' = last_odom self).
Proof.
  intros self'. subst self'. unfold set_waypoint. cbn [fst].
  repeat split.
  cbn [traversal]. destruct (position self) as [px py]. reflexivity.
Qed.

End TickClaims.

Section ModeClaims.

Context {tf : trns.Transformations} {la : npl.Linalg}.

(** The wrench and the estimates of a completed tick.  The flag [only_PD]
    decides what the wrench is made of: when set, the wrench is the PD
    term alone; when clear, the inertial feedforward, the disturbance
    estimate and the drag-regressor term are added.  The assignments of
    [dist_est] and [drag_est] do not read the flag. *)
Lemma tick_wrench_and_estimates
  (msg : Odometry) (self self' : MRAC_Controller)
  (w : WrenchStamped) (p : PoseStamped) :
  get_command msg self = Some (self', w, p) ->
  let s := unpack msg self in
  let Rm := frame_R (odom_orientation msg) in
  let kp := M3.mm (M3.mm Rm (kp_body self)) (M3.T Rm) in
  let kd := M3.mm (M3.mm Rm (kd_body self)) (M3.T Rm) in
  let pd := V3.add (M3.mv kp (err s)) (M3.mv kd (errdot s)) in
  let inertial_feedforward :=
    V3.mul (V3.concat (a_ref self) (aa_ref self))
           (mass_ref self, mass_ref self, inertia_ref self) in
  (only_PD self = true -> w = wrench_msg (body_wrench s pd)) /\
  (only_PD self = false ->
     w = wrench_msg
           (body_wrench s
              (V3.add (V3.add (V3.add pd inertial_feedforward) (dist_est self))
                      (M35.mv (drag_regressor s) (drag_est self))))) /\
  dist_est self' =
    V3.add (dist_est self) (V3.scale (V3.mul (ki self) (err s)) (timestep s)) /\
  drag_est self' =
    V5.add (drag_est self)
      (V5.scale (V5.mul (kg self)
                   (M35.Tmv (drag_regressor s) (V3.add (err s) (errdot s))))
                (timestep s)) /\
  (only_PD self' = only_PD self /\ ki self' = ki self /\ kg self' = kg self).
Proof.
  intros H s Rm kp kd pd ff.
  apply get_command_step in H as (Hstep & Hw & _).
  apply increment_reference_frame in Hstep as (Hd & Hg & Hki & Hkg & Hpd & _).
  assert (Ed : dist_est self' =
    V3.add (dist_est self) (V3.scale (V3.mul (ki self) (err s)) (timestep s)))
    by (rewrite Hd; reflexivity).
  assert (Eg : drag_est self' =
    V5.add (drag_est self)
      (V5.scale (V5.mul (kg self)
                   (M35.Tmv (drag_regressor s) (V3.add (err s) (errdot s))))
                (timestep s)))
    by (rewrite Hg; reflexivity).
  assert (Ew : world_wrench s =
    if only_PD self then pd
    else V3.add (V3.add (V3.add pd ff) (dist_est self))
                (M35.mv (drag_regressor s) (drag_est self)))
    by reflexivity.
  repeat split.
  - intros Hf. rewrite Hw. fold s. rewrite Ew, Hf. reflexivity.
  - intros Hf. rewrite Hw. fold s. rewrite Ew, Hf. reflexivity.
  - exact Ed.
  - exact Eg.
  - exact Hpd.
  - exact Hki.
  - exact Hkg.
Qed.

(** C10.  The constructor leaves the reference orientation [q_ref] at the
    zero vector, of norm 0 and not 1.  Nothing stops a state update in
    that state: whenever the mapping has a thruster, [get_command]
    completes from the initial state, and its reference step runs on the
    zero quaternion.  That step writes [q_ref] by [quaternion_from_euler],
    so that it has norm 1 afterwards, as every quaternion that function
    returns; [set_waypoint] writes the vehicle's orientation into it, of
    norm 1 in the initial state. *)
Theorem reference_orientation_starts_at_zero (msg : Odometry) :
  let before_step := update_estimates (unpack msg init) in
  (q_ref init = (0, 0, 0, 0) /\ quat_norm (q_ref init) = 0 /\
   quat_norm (q_ref init) <> 1) /\
  (npl.pinv (B_3dof (ref_B before_step)) <> [] ->
   exists self' w p,
     get_command msg init = Some (self', w, p) /\
     q_ref before_step = (0, 0, 0, 0) /\
     increment_reference before_step = Some self' /\
     q_ref self' =
       trns.quaternion_from_euler 0 0
         (V3.i2 (trns.euler_from_quaternion (0, 0, 0, 0)) + 0 * 0.02) /\
     ((forall ak, quat_norm (trns.quaternion_from_euler 0 0 ak) = 1) ->
      quat_norm (q_ref self') = 1)) /\
  (forall (wp : Point) (self : MRAC_Controller),
     q_ref (fst (set_waypoint wp self)) = orientation self) /\
  (forall wp : Point, quat_norm (q_ref (fst (set_waypoint wp init))) = 1).
Proof.
  intros before_step.
  assert (Hn : quat_norm (q_ref init) = 0).
  { cbn [init q_ref quat_norm].
    replace (0 * 0 + 0 * 0 + 0 * 0 + 0 * 0) with 0 by ring. apply sqrt_0. }
  split; [|split; [|split]].
  - split; [reflexivity|]. split; [exact Hn | rewrite Hn; lra].
  - intros HP.
    destruct (get_command_Some msg init HP) as (self' & w & p & H).
    exists self', w, p. split; [exact H|].
    apply get_command_step in H as (Hstep & _).
    split; [reflexivity|]. split; [exact Hstep|].
    pose proof (increment_reference_q_ref _ _ Hstep) as Hq.
    split; [exact Hq|].
    intros Hunit. rewrite Hq. apply Hunit.
  - intros wp self. reflexivity.
  - intros wp. unfold set_waypoint. cbn [fst q_ref init orientation quat_norm].
    replace (1 * 1 + 0 * 0 + 0 * 0 + 0 * 0) with 1 by ring. apply sqrt_1.
Qed.

End ModeClaims.

(** ** [thruster_mapper] on binary64 values *)

Module Binary64Facts.
Import Floats.
Import Binary64.
Local Open Scope float_scope.

Lemma SFeqb_refl_not_nan (f : spec_float) : f <> S754_nan -> SFeqb f f = true.
Proof.
  unfold SFeqb. destruct f as [s | s | | s m e]; simpl; intros H.
  - reflexivity.
  - destruct s; reflexivity.
  - congruence.
  - rewrite Z.compare_refl, Pos.compare_cont_refl. destruct s; reflexivity.
Qed.

(** A float is determined by its specification value. *)
Lemma of_SF (x : float) (f : spec_float) : Prim2SF x = f -> x = SF2Prim f.
Proof. intros <-. symmetry. apply SF2Prim_Prim2SF. Qed.

Lemma is_nan_SF (x : float) : is_nan x = true <-> Prim2SF x = S754_nan.
Proof.
  unfold is_nan. rewrite eqb_spec. split.
  - intros H. destruct (Prim2SF x) as [s | s | | s m e] eqn:E; [| | reflexivity |];
      rewrite SFeqb_refl_not_nan in H by discriminate; discriminate.
  - intros ->. reflexivity.
Qed.

Lemma is_nan_eq (x : float) : is_nan x = true -> x = nan.
Proof. intros H. apply is_nan_SF in H. now apply of_SF in H. Qed.

Lemma is_infinity_SF (x : float) :
  is_infinity x = true <-> exists s, Prim2SF x = S754_infinity s.
Proof.
  unfold is_infinity. rewrite eqb_spec, abs_spec.
  change (Prim2SF infinity) with (S754_infinity false). split.
  - destruct (Prim2SF x) as [s | s | | s m e]; simpl; try discriminate. eauto.
  - intros (s & ->). reflexivity.
Qed.

(** The two ways of not being finite, and the two of being finite. *)
Lemma not_finite_SF (x : float) :
  is_finite x = false ->
  Prim2SF x = S754_nan \/ exists s, Prim2SF x = S754_infinity s.
Proof.
  unfold is_finite. rewrite negb_false_iff, orb_true_iff.
  intros [H | H]; [left; now apply is_nan_SF | right; now apply is_infinity_SF].
Qed.

Lemma finite_SF (x : float) :
  is_finite x = true ->
  (exists s, Prim2SF x = S754_zero s) \/ (exists s m e, Prim2SF x = S754_finite s m e).
Proof.
  unfold is_finite. rewrite negb_true_iff, orb_false_iff. intros (Hn & Hi).
  destruct (Prim2SF x) as [s | s | | s m e] eqn:E.
  - left. eauto.
  - assert (is_infinity x = true) by (apply is_infinity_SF; eauto). congruence.
  - assert (is_nan x = true) by (now apply is_nan_SF). congruence.
  - right. eauto.
Qed.

Lemma leb_nan_l (x : float) : (nan <=? x) = false.
Proof. rewrite leb_spec. reflexivity. Qed.

Lemma ltb_nan_r (x : float) : (x <? nan) = false.
Proof.
  rewrite ltb_spec. change (Prim2SF nan) with S754_nan.
  unfold SFltb. destruct (Prim2SF x); reflexivity.
Qed.

Lemma maximum_nan_l (b : float) : maximum nan b = nan.
Proof. unfold maximum. change (is_nan nan) with true. now rewrite orb_true_r. Qed.

Lemma maximum_nan_r (a : float) : maximum a nan = nan.
Proof.
  unfold maximum. rewrite leb_nan_l. simpl.
  destruct (is_nan a) eqn:E; [now apply is_nan_eq | reflexivity].
Qed.

Lemma fold_maximum_nan (xs : list float) : fold_left maximum xs nan = nan.
Proof.
  induction xs as [|y ys IH]; simpl; [reflexivity|].
  now rewrite maximum_nan_l.
Qed.

Lemma fold_maximum_In_nan (xs : list float) (x : float) :
  In nan xs -> fold_left maximum xs x = nan.
Proof.
  revert x; induction xs as [|y ys IH]; intros x; simpl; [tauto|].
  intros [-> | H].
  - rewrite maximum_nan_r. apply fold_maximum_nan.
  - now apply IH.
Qed.

Lemma max_In_nan (v : list float) : In nan v -> max v = Some nan.
Proof.
  destruct v as [|x xs]; simpl; [tauto|].
  intros [-> | H]; f_equal; [apply fold_maximum_nan | now apply fold_maximum_In_nan].
Qed.

Lemma existsb_is_nan (v : list float) : existsb is_nan v = true <-> In nan v.
Proof.
  rewrite existsb_exists. split.
  - intros (c & Hc & Hn). apply is_nan_eq in Hn. now subst.
  - intros H. exists nan. split; [exact H | reflexivity].
Qed.

Lemma all_finite_nan (v : list float) : In nan v -> all_finite v = false.
Proof.
  intros H. unfold all_finite.
  destruct (forallb is_finite v) eqn:E; [|reflexivity].
  rewrite forallb_forall in E. specialize (E _ H). discriminate E.
Qed.

(** [+infinity] absorbs every value that is not NaN. *)
Lemma maximum_infinity_l (b : float) : is_nan b = false -> maximum infinity b = infinity.
Proof.
  intros Hb. unfold maximum. rewrite leb_spec.
  change (Prim2SF infinity) with (S754_infinity false).
  destruct (Prim2SF b) as [s | s | | s m e] eqn:E.
  - reflexivity.
  - destruct s; reflexivity.
  - apply is_nan_SF in E. congruence.
  - reflexivity.
Qed.

Lemma maximum_infinity_r (a : float) : is_nan a = false -> maximum a infinity = infinity.
Proof.
  intros Ha. unfold maximum. rewrite Ha, orb_false_r, leb_spec.
  change (Prim2SF infinity) with (S754_infinity false).
  destruct (Prim2SF a) as [s | s | | s m e] eqn:E; try reflexivity.
  destruct s; [reflexivity|]. simpl. now apply of_SF in E.
Qed.

Lemma maximum_not_nan (a b : float) :
  is_nan a = false -> is_nan b = false -> is_nan (maximum a b) = false.
Proof. intros Ha Hb. unfold maximum. destruct (_ || _); assumption. Qed.

Lemma abs_not_nan (c : float) : is_nan c = false -> is_nan (abs c) = false.
Proof.
  intros H. destruct (is_nan (abs c)) eqn:E; [|reflexivity].
  apply is_nan_SF in E. rewrite abs_spec in E.
  destruct (Prim2SF c) eqn:Ec; try discriminate E.
  apply is_nan_SF in Ec. congruence.
Qed.

Lemma abs_infinity (c : float) (s : bool) :
  Prim2SF c = S754_infinity s -> abs c = infinity.
Proof.
  intros H. apply (of_SF (abs c) (S754_infinity false)).
  rewrite abs_spec, H. reflexivity.
Qed.

Lemma fold_maximum_infinity (xs : list float) :
  forallb (fun c => negb (is_nan c)) xs = true ->
  fold_left maximum xs infinity = infinity.
Proof.
  induction xs as [|y ys IH]; simpl; [reflexivity|].
  rewrite andb_true_iff, negb_true_iff. intros (Hy & Hys).
  rewrite maximum_infinity_l by exact Hy. now apply IH.
Qed.

Lemma fold_maximum_In_infinity (xs : list float) (x : float) :
  is_nan x = false ->
  forallb (fun c => negb (is_nan c)) xs = true ->
  In infinity xs -> fold_left maximum xs x = infinity.
Proof.
  revert x; induction xs as [|y ys IH]; intros x Hx; simpl; [tauto|].
  rewrite andb_true_iff, negb_true_iff. intros (Hy & Hys) [-> | H].
  - rewrite maximum_infinity_r by exact Hx. now apply fold_maximum_infinity.
  - apply IH; [now apply maximum_not_nan | exact Hys | exact H].
Qed.

Lemma max_In_infinity (v : list float) :
  forallb (fun c => negb (is_nan c)) v = true -> In infinity v -> max v = Some infinity.
Proof.
  destruct v as [|x xs]; simpl; [tauto|].
  rewrite andb_true_iff, negb_true_iff. intros (Hx & Hxs) [-> | H]; f_equal.
  - now apply fold_maximum_infinity.
  - now apply fold_maximum_In_infinity.
Qed.

(** A finite limit is below infinity, and divided by infinity it is a
    zero, which times an infinity is NaN. *)
Lemma finite_ltb_infinity (t : float) : is_finite t = true -> (t <? infinity) = true.
Proof.
  intros H. rewrite ltb_spec. change (Prim2SF infinity) with (S754_infinity false).
  destruct (finite_SF t H) as [(s & ->) | (s & m & e & ->)]; reflexivity.
Qed.

Lemma finite_div_infinity_mul (t c : float) (s : bool) :
  is_finite t = true -> Prim2SF c = S754_infinity s -> (t / infinity) * c = nan.
Proof.
  intros H Hc. apply (of_SF _ S754_nan).
  rewrite mul_spec, div_spec, Hc. change (Prim2SF infinity) with (S754_infinity false).
  destruct (finite_SF t H) as [(s' & ->) | (s' & m & e & ->)]; reflexivity.
Qed.

Lemma existsb_false_forallb (v : list float) :
  existsb is_nan v = false -> forallb (fun c => negb (is_nan c)) v = true.
Proof.
  induction v as [|x xs IH]; simpl; [reflexivity|].
  rewrite orb_false_iff. intros (-> & H). now rewrite IH.
Qed.

Lemma all_finite_false (v : list float) :
  all_finite v = false -> exists c, In c v /\ is_finite c = false.
Proof.
  unfold all_finite. induction v as [|x xs IH]; simpl; [discriminate|].
  rewrite andb_false_iff. intros [H | H].
  - exists x. auto.
  - destruct (IH H) as (c & Hc & Hf). exists c. auto.
Qed.

Lemma forallb_abs_not_nan (v : list float) :
  forallb (fun c => negb (is_nan c)) v = true ->
  forallb (fun c => negb (is_nan c)) (map abs v) = true.
Proof.
  induction v as [|x xs IH]; simpl; [reflexivity|].
  rewrite !andb_true_iff, !negb_true_iff. intros (Hx & Hxs).
  split; [now apply abs_not_nan | now apply IH].
Qed.

(** C3 (as the code has it).  The routine has no guard against values that
    are not finite and substitutes no zero command, for any mapping,
    singular or not.  A least-squares solution that contains a NaN is
    returned as it is: [np.max] is NaN and the comparison with
    [thrust_max] is false.  More generally, for a finite [thrust_max],
    whenever the solution has an entry that is not finite, the returned
    command holds a NaN: an infinite entry is scaled by
    [thrust_max / infinity = 0]. *)
Theorem thruster_mapper_propagates_nan
  (pinv : fmat3N -> list fvec3) (thrust_max : float) (wrench : fvec3) (B : fmat3N) :
  let solution := min_energy_command pinv wrench B in
  (existsb is_nan solution = true ->
   thruster_mapper pinv thrust_max wrench B = Some solution) /\
  (is_finite thrust_max = true ->
   all_finite solution = false ->
   exists command,
     thruster_mapper pinv thrust_max wrench B = Some command /\
     existsb is_nan command = true /\
     all_finite command = false).
Proof.
  intros solution.
  assert (Hnan : existsb is_nan solution = true ->
                 thruster_mapper pinv thrust_max wrench B = Some solution).
  { intros H. apply existsb_is_nan in H. unfold thruster_mapper. fold solution.
    rewrite (max_In_nan (map abs solution)).
    - now rewrite ltb_nan_r.
    - change nan with (abs nan). now apply in_map. }
  split; [exact Hnan|].
  intros Ht Hf. destruct (existsb is_nan solution) eqn:En.
  - exists solution. split; [now apply Hnan|]. split; [exact En | exact Hf].
  - apply existsb_false_forallb in En.
    destruct (all_finite_false _ Hf) as (c & Hc & Hcf).
    assert (Hcn : is_nan c = false).
    { rewrite forallb_forall in En. specialize (En _ Hc).
      now apply negb_true_iff in En. }
    destruct (not_finite_SF _ Hcf) as [E | (s & E)].
    { apply is_nan_SF in E. congruence. }
    set (k := thrust_max / infinity).
    assert (Hin : In nan (map (fun c => k * c) solution)).
    { rewrite <- (finite_div_infinity_mul thrust_max c s Ht E).
      now apply (in_map (fun c => k * c)). }
    exists (map (fun c => k * c) solution).
    split; [|split; [now apply existsb_is_nan | now apply all_finite_nan]].
    unfold thruster_mapper. fold solution.
    rewrite (max_In_infinity (map abs solution)).
    + now rewrite finite_ltb_infinity.
    + now apply forallb_abs_not_nan.
    + rewrite <- (abs_infinity c s E). now apply in_map.
Qed.

(** C3, refuted.  A mapping, its pseudoinverse and a wrench, all finite:
    the solution overflows to infinity, the scaling multiplies it by
    [220 / infinity = 0], and the returned command holds a NaN; it is not
    the zero command. *)
Lemma thruster_mapper_returns_nan :
  let command := thruster_mapper (fun _ => P_small) 220 wrench_large B_small in
  forallb is_finite [0x1p-600; 0x1p+600; 220; 0] = true /\
  min_energy_command (fun _ => P_small) wrench_large B_small = [infinity; 0; 0; 0] /\
  command = Some [nan; 0; 0; 0] /\
  option_map all_finite command = Some false /\
  command <> Some [0; 0; 0; 0].
Proof.
  intros command.
  assert (E : command = Some [nan; 0; 0; 0]) by (vm_compute; reflexivity).
  repeat split; try (vm_compute; reflexivity).
  rewrite E. intros H.
  apply (f_equal (option_map all_finite)) in H. vm_compute in H. discriminate H.
Qed.

(** The theorem at a singular mapping, the zero matrix, whose pseudoinverse
    is the zero matrix, and a wrench with an infinite entry: the solution
    is NaN throughout and is returned. *)
Lemma thruster_mapper_propagates_nan_witness :
  let pinv0 : fmat3N -> list fvec3 := fun _ => [(0, 0, 0); (0, 0, 0)] in
  let B := ([0; 0], [0; 0], [0; 0]) in
  let wrench := (infinity, 0, 0) in
  existsb is_nan (min_energy_command pinv0 wrench B) = true /\
  is_finite 220 = true /\
  all_finite (min_energy_command pinv0 wrench B) = false /\
  thruster_mapper pinv0 220 wrench B = Some (min_energy_command pinv0 wrench B) /\
  exists command,
    thruster_mapper pinv0 220 wrench B = Some command /\
    existsb is_nan command = true /\
    all_finite command = false.
Proof.
  intros pinv0 B wrench.
  assert (H : existsb is_nan (min_energy_command pinv0 wrench B) = true)
    by (vm_compute; reflexivity).
  assert (Ht : is_finite 220 = true) by (vm_compute; reflexivity).
  assert (Hf : all_finite (min_energy_command pinv0 wrench B) = false)
    by (vm_compute; reflexivity).
  destruct (thruster_mapper_propagates_nan pinv0 220 wrench B) as [H1 H2].
  split; [exact H|]. split; [exact Ht|]. split; [exact Hf|].
  split; [exact (H1 H) | exact (H2 Ht Hf)].
Defined.

(** A surge force of 1000 N on three thrusters along the axes and a fourth
    that contributes nothing: beyond the envelope the command is scaled to
    220 N; within it the solution is returned. *)
Example saturated_command_binary64 :
  thruster_mapper (fun _ => [(1, 0, 0); (0, 1, 0); (0, 0, 1); (0, 0, 0)]) 220
    (1000, 0, 0) ([1; 0; 0; 0], [0; 1; 0; 0], [0; 0; 1; 0])
  = Some [220; 0; 0; 0].
Proof. vm_compute. reflexivity. Qed.

Example unscaled_command_binary64 :
  thruster_mapper (fun _ => [(1, 0, 0); (0, 1, 0); (0, 0, 1); (0, 0, 0)]) 220
    (100, -50, 3) ([1; 0; 0; 0], [0; 1; 0; 0], [0; 0; 1; 0])
  = Some [100; -50; 3; 0].
Proof. vm_compute. reflexivity. Qed.

End Binary64Facts.

(** ** The order of binary64 values *)

Module Binary64Order.
Import Floats.
Import Binary64 Binary64Facts.
Local Open Scope float_scope.

Lemma SFcompare_swap (f1 f2 : spec_float) :
  SFcompare f2 f1 = option_map CompOpp (SFcompare f1 f2).
Proof.
  destruct f1 as [[] | [] | | [] m1 e1], f2 as [[] | [] | | [] m2 e2];
    try reflexivity; simpl;
    rewrite (Z.compare_antisym e1 e2); destruct (e1 ?= e2)%Z; simpl; try reflexivity.
  - change (PosDef.Pos.compare_cont Eq m2 m1) with (Pos.compare_cont (CompOpp Eq) m2 m1).
    rewrite <- (Pos.compare_cont_antisym m1 m2 Eq). reflexivity.
  - change (PosDef.Pos.compare_cont Eq m2 m1) with (Pos.compare_cont (CompOpp Eq) m2 m1).
    rewrite <- (Pos.compare_cont_antisym m1 m2 Eq). reflexivity.
Qed.

Lemma SFleb_total (f1 f2 : spec_float) :
  f1 <> S754_nan -> f2 <> S754_nan -> SFltb f1 f2 = false -> SFleb f2 f1 = true.
Proof.
  intros H1 H2. unfold SFltb, SFleb. rewrite (SFcompare_swap f1 f2).
  destruct f1 as [[] | [] | | [] m1 e1], f2 as [[] | [] | | [] m2 e2];
    try congruence; simpl; try reflexivity; try discriminate;
    destruct (e1 ?= e2)%Z; simpl; try reflexivity; try discriminate;
    destruct (Pos.compare_cont Eq m1 m2); simpl; try reflexivity; discriminate.
Qed.

Lemma SFleb_false (f1 f2 : spec_float) :
  f1 <> S754_nan -> f2 <> S754_nan -> SFleb f2 f1 = false -> SFleb f1 f2 = true.
Proof.
  intros H1 H2. unfold SFleb. rewrite (SFcompare_swap f1 f2).
  destruct (SFcompare f1 f2) as [[]|] eqn:E; simpl; try reflexivity; try discriminate.
  destruct f1, f2; try congruence; discriminate E.
Qed.

Lemma SFleb_refl (f : spec_float) : f <> S754_nan -> SFleb f f = true.
Proof.
  intros H. unfold SFleb.
  destruct f as [[] | [] | | [] m e]; try congruence; simpl; try reflexivity;
    rewrite Z.compare_refl, Pos.compare_cont_refl; reflexivity.
Qed.

Lemma SFleb_trans (f1 f2 f3 : spec_float) :
  SFleb f1 f2 = true -> SFleb f2 f3 = true -> SFleb f1 f3 = true.
Proof.
  unfold SFleb.
  destruct f1 as [[] | [] | | [] m1 e1], f2 as [[] | [] | | [] m2 e2],
           f3 as [[] | [] | | [] m3 e3];
    simpl; try reflexivity; try discriminate;
    change (Pos.compare_cont Eq) with Pos.compare;
    destruct (Z.compare_spec e1 e2), (Z.compare_spec e2 e3), (Z.compare_spec e1 e3);
    try lia; simpl; try reflexivity; try discriminate;
    destruct (Pos.compare_spec m1 m2), (Pos.compare_spec m2 m3), (Pos.compare_spec m1 m3);
    try lia; simpl; try reflexivity; try discriminate.
Qed.

Lemma not_nan_SF (x : float) : is_nan x = false -> Prim2SF x <> S754_nan.
Proof. intros H E. apply is_nan_SF in E. congruence. Qed.

(** On values that are not NaN, [<=] is a total preorder and [<] its
    complement. *)
Lemma leb_refl (a : float) : is_nan a = false -> (a <=? a) = true.
Proof. intros H. rewrite leb_spec. apply SFleb_refl. now apply not_nan_SF. Qed.

Lemma leb_trans (a b c : float) :
  (a <=? b) = true -> (b <=? c) = true -> (a <=? c) = true.
Proof. rewrite !leb_spec. apply SFleb_trans. Qed.

Lemma ltb_false_leb (a b : float) :
  is_nan a = false -> is_nan b = false -> (a <? b) = false -> (b <=? a) = true.
Proof.
  intros Ha Hb. rewrite ltb_spec, leb_spec.
  apply SFleb_total; now apply not_nan_SF.
Qed.

Lemma leb_false_leb (a b : float) :
  is_nan a = false -> is_nan b = false -> (b <=? a) = false -> (a <=? b) = true.
Proof.
  intros Ha Hb. rewrite !leb_spec. apply SFleb_false; now apply not_nan_SF.
Qed.

Lemma ltb_nan_l (x : float) : (nan <? x) = false.
Proof. rewrite ltb_spec. reflexivity. Qed.

(** [np.maximum] is an upper bound of its arguments, and [np.max] of the
    array. *)
Lemma maximum_ge (a b : float) :
  is_nan a = false -> is_nan b = false ->
  (a <=? maximum a b) = true /\ (b <=? maximum a b) = true.
Proof.
  intros Ha Hb. unfold maximum. rewrite Ha, orb_false_r.
  destruct (b <=? a) eqn:E.
  - split; [now apply leb_refl | exact E].
  - split; [now apply leb_false_leb | now apply leb_refl].
Qed.

Lemma fold_maximum_ge (xs : list float) (x : float) :
  is_nan x = false -> forallb (fun c => negb (is_nan c)) xs = true ->
  is_nan (fold_left maximum xs x) = false /\
  (x <=? fold_left maximum xs x) = true /\
  forall c, In c xs -> (c <=? fold_left maximum xs x) = true.
Proof.
  revert x; induction xs as [|y ys IH]; intros x Hx; simpl.
  - intros _. split; [exact Hx|]. split; [now apply leb_refl | tauto].
  - rewrite andb_true_iff, negb_true_iff. intros (Hy & Hys).
    destruct (maximum_ge x y Hx Hy) as (Gx & Gy).
    destruct (IH (maximum x y) (maximum_not_nan _ _ Hx Hy) Hys) as (Hn & Hm & Hin).
    split; [exact Hn|]. split; [now apply leb_trans with (maximum x y)|].
    intros c [<- | Hc]; [now apply leb_trans with (maximum x y) | now apply Hin].
Qed.

Lemma max_ge (v : list float) (m : float) :
  forallb (fun c => negb (is_nan c)) v = true -> max v = Some m ->
  is_nan m = false /\ forall c, In c v -> (c <=? m) = true.
Proof.
  destruct v as [|x xs]; simpl; [discriminate|].
  rewrite andb_true_iff, negb_true_iff. intros (Hx & Hxs) E.
  destruct (fold_maximum_ge xs x Hx Hxs) as (Hn & Hm & Hin).
  assert (Em : fold_left maximum xs x = m) by congruence.
  rewrite Em in *.
  split; [exact Hn|]. intros c [<- | Hc]; [exact Hm | now apply Hin].
Qed.

(** A solution without NaN whose largest absolute entry is not above the
    limit has every entry within the limit. *)
Lemma within_limit (t m : float) (v : list float) :
  is_nan t = false -> existsb is_nan v = false ->
  max (map abs v) = Some m -> (t <? m) = false ->
  forallb (fun c => abs c <=? t) v = true.
Proof.
  intros Ht Hv Hm Hlt.
  apply existsb_false_forallb, forallb_abs_not_nan in Hv.
  destruct (max_ge _ _ Hv Hm) as (Hn & Hin).
  apply forallb_forall. intros c Hc.
  apply leb_trans with m; [apply Hin; now apply in_map|].
  now apply ltb_false_leb.
Qed.

(** The two ways the routine returns. *)
Lemma mapper_cases
  (pinv : fmat3N -> list fvec3) (t : float) (wrench : fvec3) (B : fmat3N)
  (command : list float) :
  thruster_mapper pinv t wrench B = Some command ->
  exists m,
    max (map abs (min_energy_command pinv wrench B)) = Some m /\
    (((t <? m) = false /\ command = min_energy_command pinv wrench B) \/
     ((t <? m) = true /\
      command = map (fun c => (t / m) * c) (min_energy_command pinv wrench B))).
Proof.
  unfold thruster_mapper.
  destruct (max (map abs (min_energy_command pinv wrench B))) as [m|]; [|discriminate].
  intros H. exists m. split; [reflexivity|].
  destruct (t <? m); [right | left]; split; congruence.
Qed.

(** [np.clip] returns a NaN as it is, and brings every other value within
    the bounds. *)
Lemma clip_nan (x lo hi : float) : is_nan x = true -> Binary64Tick.clip x lo hi = x.
Proof.
  intros H. apply is_nan_eq in H. subst x. unfold Binary64Tick.clip.
  now rewrite ltb_nan_l, ltb_nan_r.
Qed.

Lemma clip_within (x lo hi : float) :
  is_nan x = false -> is_nan lo = false -> is_nan hi = false -> (lo <=? hi) = true ->
  is_nan (Binary64Tick.clip x lo hi) = false /\
  (lo <=? Binary64Tick.clip x lo hi) = true /\ (Binary64Tick.clip x lo hi <=? hi) = true.
Proof.
  intros Hx Hlo Hhi Hle. unfold Binary64Tick.clip.
  destruct (x <? lo) eqn:E1; [|destruct (hi <? x) eqn:E2].
  - split; [exact Hlo|]. split; [now apply leb_refl | exact Hle].
  - split; [exact Hhi|]. split; [exact Hle | now apply leb_refl].
  - split; [exact Hx|]. split; now apply ltb_false_leb.
Qed.

Lemma clip_600 (b : float) :
  let f := Binary64Tick.clip b (-600) 600 in
  is_nan f = is_nan b /\
  (is_nan b = true -> f = b) /\
  (is_nan b = false -> (-600 <=? f) && (f <=? 600) = true).
Proof.
  intros f. destruct (is_nan b) eqn:E.
  - unfold f. rewrite (clip_nan b _ _ E). repeat split; congruence.
  - destruct (clip_within b (-600) 600 E eq_refl eq_refl eq_refl) as (Hn & Hl & Hh).
    split; [exact Hn|]. split; [discriminate|]. intros _. fold f in Hl, Hh.
    now rewrite Hl, Hh.
Qed.

End Binary64Order.

(** ** Concrete runs, on the reference instances *)

Ltac list_entrywise :=
  repeat match goal with
         | |- (_, _) = (_, _) => apply f_equal2
         | |- _ :: _ = _ :: _ => apply f_equal2
         | |- @nil _ = @nil _ => reflexivity
         end.

Lemma pinv_B0 :
  pinv_reference.pinv Run.B0 = [(1, 0, 0); (0, 1, 0); (0, 0, 1); (0, 0, 0)].
Proof.
  unfold pinv_reference.pinv, Run.B0.
  cbn [np.dot pinv_reference.columns map pinv_reference.inv3 pinv_reference.det3
       M3.T M3.mv V3.dot].
  list_entrywise; field; lra.
Qed.

Lemma B0_full_row_rank : Alloc.full_row_rank Run.B0.
Proof.
  intros [[a0 a1] a2] H.
  pose proof (H 0%nat) as H0. pose proof (H 1%nat) as H1. pose proof (H 2%nat) as H2.
  unfold Run.B0 in H0, H1, H2.
  cbn [np.row_mm np.scale np.add map nth] in H0, H1, H2.
  entrywise; lra.
Qed.

Lemma B0_is_pinv : Alloc.is_pinv Run.B0 (pinv_reference.pinv Run.B0).
Proof.
  rewrite pinv_B0. unfold Alloc.is_pinv, Run.B0.
  split; [cbn; auto|].
  assert (E : Alloc.BP ([1; 0; 0; 0], [0; 1; 0; 0], [0; 0; 1; 0])
                [(1, 0, 0); (0, 1, 0); (0, 0, 1); (0, 0, 0)]
              = ((1, 0, 0), (0, 1, 0), (0, 0, 1))).
  { unfold Alloc.BP, np.T, np.mv_3N.
    cbn [fst snd map V3.i0 V3.i1 V3.i2 np.dot]. entrywise; ring. }
  rewrite E. repeat split.
  - unfold np.mm_3N, np.row_mm. cbn [np.scale np.add map]. list_entrywise; ring.
  - unfold Alloc.PM. cbn [map M3.T M3.mv V3.dot]. list_entrywise; ring.
  - unfold Alloc.symmetric, Alloc.PB, np.row_mm. cbn [np.scale np.add map].
    intros k l.
    do 5 (destruct k as [|k]; [do 5 (destruct l as [|l]; [cbn [nth]; ring|]);
                               cbn [nth]; destruct l; ring|]).
    cbn [nth].
    do 5 (destruct l as [|l]; [cbn [nth]; destruct k; ring|]).
    destruct k, l; reflexivity.
Qed.

Lemma thrust_max_init : thrust_max init = 220.
Proof. reflexivity. Qed.

Lemma command_B0 :
  min_energy_command (la := pinv_reference.la) (1, 2, 3) Run.B0 =
  [1 * 1 + 0 * 2 + 0 * 3; 0 * 1 + 1 * 2 + 0 * 3; 0 * 1 + 0 * 2 + 1 * 3;
   0 * 1 + 0 * 2 + 0 * 3].
Proof.
  unfold min_energy_command. cbn [npl.pinv pinv_reference.la].
  rewrite pinv_B0. reflexivity.
Qed.

Lemma command_B0_within :
  Alloc.within (thrust_max init)
    (min_energy_command (la := pinv_reference.la) (1, 2, 3) Run.B0).
Proof.
  rewrite command_B0, thrust_max_init. unfold Alloc.within.
  repeat (apply Forall_cons; [apply Rabs_le; lra|]). apply Forall_nil.
Qed.

(** C1 at the mapping [B0] and the wrench (1, 2, 3). *)
Lemma thruster_mapper_achieves_witness :
  Alloc.full_row_rank Run.B0 /\
  Alloc.is_pinv Run.B0 (pinv_reference.pinv Run.B0) /\
  Alloc.within (thrust_max init)
    (min_energy_command (la := pinv_reference.la) (1, 2, 3) Run.B0) /\
  thruster_mapper (la := pinv_reference.la) init (1, 2, 3) Run.B0 =
    Some (min_energy_command (la := pinv_reference.la) (1, 2, 3) Run.B0) /\
  np.mv_3N Run.B0 (min_energy_command (la := pinv_reference.la) (1, 2, 3) Run.B0)
    = (1, 2, 3).
Proof.
  split; [exact B0_full_row_rank|]. split; [exact B0_is_pinv|].
  split; [exact command_B0_within|].
  exact (thruster_mapper_achieves (la := pinv_reference.la) init (1, 2, 3) Run.B0
           B0_full_row_rank B0_is_pinv command_B0_within).
Defined.

Lemma pinv_B0_nonempty : npl.pinv (Linalg := pinv_reference.la) Run.B0 <> [].
Proof. cbn [npl.pinv pinv_reference.la]. rewrite pinv_B0. discriminate. Qed.

Lemma thrust_max_init_nonneg : 0 <= thrust_max init.
Proof. rewrite thrust_max_init. lra. Qed.

Lemma length_columns (b0 b1 b2 : list R) (N : nat) :
  length b0 = N -> length b1 = N -> length b2 = N ->
  length (pinv_reference.columns b0 b1 b2) = N.
Proof.
  revert b1 b2 N; induction b0 as [|x b0 IH]; intros [|y b1] [|z b2] N; simpl;
    try congruence.
  intros H0 H1 H2. destruct N as [|N]; [discriminate|].
  f_equal. apply IH; congruence.
Qed.

Lemma shape_T (a : list vec3) : Alloc.shape_3N (np.T a) (length a).
Proof. unfold np.T. cbn. rewrite !length_map. auto. Qed.

Section ReferenceRuns.

Context {tf : trns.Transformations}.

(** With the four thrusters of the constructor, the reference
    pseudoinverse has four rows. *)
Lemma reference_pinv_nonempty (self : MRAC_Controller) :
  length (thruster_directions self) = 4%nat ->
  length (lever_arms self) = 4%nat ->
  npl.pinv (Linalg := pinv_reference.la) (B_3dof (ref_B self)) <> [].
Proof.
  intros Hd Hl. unfold ref_B, np.mm_3N.
  destruct (R_ref self) as [[r0 r1] r2]. cbn [B_3dof npl.pinv pinv_reference.la].
  unfold pinv_reference.pinv.
  pose proof (shape_T (thruster_directions self)) as Sd.
  pose proof (shape_T (lever_arms self)) as Sl.
  rewrite Hd in Sd. rewrite Hl in Sl.
  pose proof (length_columns _ _ _ 4
                (length_row_mm r0 _ _ Sd) (length_row_mm r1 _ _ Sd)
                (length_row_mm r2 _ _ Sl)) as L.
  intros E. apply (f_equal (@length _)) in E. rewrite length_map, L in E.
  discriminate E.
Qed.

Lemma reference_tick (msg : Odometry) (self : MRAC_Controller) :
  length (thruster_directions self) = 4%nat ->
  length (lever_arms self) = 4%nat ->
  exists self' w p,
    get_command (la := pinv_reference.la) msg self = Some (self', w, p).
Proof.
  intros Hd Hl. apply get_command_Some.
  apply reference_pinv_nonempty; assumption.
Qed.

(** A tick does not touch the thruster geometry. *)
Lemma get_command_geometry {la : npl.Linalg}
  (msg : Odometry) (self self' : MRAC_Controller) (w : WrenchStamped) (p : PoseStamped) :
  get_command msg self = Some (self', w, p) ->
  thruster_directions self' = thruster_directions self /\
  lever_arms self' = lever_arms self.
Proof.
  intros H. open_tick H. split; reflexivity.
Qed.

End ReferenceRuns.

(** The first message, from the initial state: the vehicle is 5 m behind
    the reference position. *)
Lemma first_tick :
  exists self' w p,
    get_command (tf := tf_reference.tf) (la := pinv_reference.la)
      (Run.odom Run.t1 (-5) 0) init = Some (self', w, p).
Proof. apply reference_tick; reflexivity. Qed.

(** C9 on the first message: the position error is (5, 0) and the nominal
    timestep 0.02 is used. *)
Lemma dist_est_integrates_error_witness :
  exists self' w p,
    get_command (tf := tf_reference.tf) (la := pinv_reference.la)
      (Run.odom Run.t1 (-5) 0) init = Some (self', w, p) /\
    V3.i0 (dist_est self') = 0 + 0.1 * (0 - -5) * 0.02.
Proof.
  destruct first_tick as (self' & w & p & H).
  exists self', w, p. split; [exact H|].
  destruct (dist_est_integrates_error _ _ _ _ _ H) as [E _].
  rewrite E. reflexivity.
Defined.

(** Two messages in a row, 20 ms apart or with one stamp. *)
Lemma two_ticks (ta tb : Time) :
  exists s1 w1 p1 s2 w2 p2,
    get_command (tf := tf_reference.tf) (la := pinv_reference.la)
      (Run.odom ta 0 0) init = Some (s1, w1, p1) /\
    last_odom s1 = Some (Run.odom ta 0 0) /\
    get_command (tf := tf_reference.tf) (la := pinv_reference.la)
      (Run.odom tb 0 0) s1 = Some (s2, w2, p2).
Proof.
  destruct (reference_tick (tf := tf_reference.tf) (Run.odom ta 0 0) init
              eq_refl eq_refl) as (s1 & w1 & p1 & H1).
  destruct (get_command_geometry _ _ _ _ _ H1) as (Hd & Hl).
  destruct (get_command_timestep _ _ _ _ _ H1) as (_ & Hlast).
  destruct (reference_tick (tf := tf_reference.tf) (Run.odom tb 0 0) s1)
    as (s2 & w2 & p2 & H2).
  { rewrite Hd. reflexivity. }
  { rewrite Hl. reflexivity. }
  exists s1, w1, p1, s2, w2, p2. auto.
Qed.

(** C4 (as the code has it) on two messages 20 ms apart. *)
Lemma timestep_is_stamp_difference_witness :
  exists s1 w1 p1 s2 w2 p2,
    get_command (tf := tf_reference.tf) (la := pinv_reference.la)
      (Run.odom Run.t1 0 0) init = Some (s1, w1, p1) /\
    last_odom s1 = Some (Run.odom Run.t1 0 0) /\
    get_command (tf := tf_reference.tf) (la := pinv_reference.la)
      (Run.odom Run.t2 0 0) s1 = Some (s2, w2, p2) /\
    timestep s2 = IZR 20000000 / 1000000000 /\
    0 < timestep s2.
Proof.
  destruct (two_ticks Run.t1 Run.t2) as (s1 & w1 & p1 & s2 & w2 & p2 & H1 & Hlast & H2).
  exists s1, w1, p1, s2, w2, p2.
  split; [exact H1|]. split; [exact Hlast|]. split; [exact H2|].
  destruct (timestep_is_stamp_difference _ _ _ _ _ _ Hlast H2) as (_ & _ & E & Hiff).
  split; [exact E|].
  rewrite E. apply Hiff. reflexivity.
Defined.

(** C4, refuted.  The same message delivered twice from the initial
    state: the second tick runs with a timestep of zero. *)
Lemma timestep_not_clamped :
  exists s1 w1 p1 s2 w2 p2,
    get_command (tf := tf_reference.tf) (la := pinv_reference.la)
      (Run.odom Run.t1 0 0) init = Some (s1, w1, p1) /\
    get_command (tf := tf_reference.tf) (la := pinv_reference.la)
      (Run.odom Run.t1 0 0) s1 = Some (s2, w2, p2) /\
    timestep s2 = 0 /\ ~ 0 < timestep s2.
Proof.
  destruct (two_ticks Run.t1 Run.t1) as (s1 & w1 & p1 & s2 & w2 & p2 & H1 & Hlast & H2).
  exists s1, w1, p1, s2, w2, p2.
  split; [exact H1|]. split; [exact H2|].
  destruct (get_command_timestep _ _ _ _ _ H2) as (E & _).
  assert (E0 : timestep s2 = 0).
  { rewrite E. unfold odom_timestep. rewrite Hlast. rewrite sub_to_sec_nsec.
    replace (rospy.to_nsec _ - rospy.to_nsec _)%Z with 0%Z by (cbn; lia). lra. }
  split; [exact E0 | rewrite E0; lra].
Qed.

(** tf's [quaternion_from_euler(0, 0, ak)] is [[0, 0, sin(ak/2), cos(ak/2)]],
    a unit quaternion. *)
Lemma reference_yaw_quaternion (ak : R) :
  tf_reference.quaternion_from_euler 0 0 ak = (0, 0, sin (ak / 2), cos (ak / 2)).
Proof.
  unfold tf_reference.quaternion_from_euler.
  replace (0 / 2) with 0 by field. rewrite cos_0, sin_0.
  entrywise; ring.
Qed.

Lemma reference_yaw_quaternion_unit (ak : R) :
  quat_norm (tf_reference.quaternion_from_euler 0 0 ak) = 1.
Proof.
  rewrite reference_yaw_quaternion. unfold quat_norm.
  replace (0 * 0 + 0 * 0 + sin (ak / 2) * sin (ak / 2) + cos (ak / 2) * cos (ak / 2))
    with (Rsqr (sin (ak / 2)) + Rsqr (cos (ak / 2))) by (unfold Rsqr; ring).
  rewrite sin2_cos2. apply sqrt_1.
Qed.

(** C10 on the first message: the tick completes from the initial state
    and leaves a unit reference orientation. *)
Lemma reference_orientation_starts_at_zero_witness :
  quat_norm (q_ref init) = 0 /\
  exists self' w p,
    get_command (tf := tf_reference.tf) (la := pinv_reference.la)
      (Run.odom Run.t1 (-5) 0) init = Some (self', w, p) /\
    quat_norm (q_ref self') = 1.
Proof.
  destruct (reference_orientation_starts_at_zero
              (tf := tf_reference.tf) (la := pinv_reference.la)
              (Run.odom Run.t1 (-5) 0)) as ((_ & Hn & _) & Hrun & _ & _).
  split; [exact Hn|].
  destruct (Hrun (reference_pinv_nonempty (tf := tf_reference.tf)
                    (update_estimates (unpack (Run.odom Run.t1 (-5) 0) init))
                    eq_refl eq_refl))
    as (self' & w & p & H & _ & _ & _ & Hunit).
  exists self', w, p. split; [exact H|].
  apply Hunit. exact reference_yaw_quaternion_unit.
Defined.

Lemma far_waypoint : 500 < sqrt ((1000 - 0) * (1000 - 0) + (0 - 0) * (0 - 0)).
Proof.
  replace 500 with (sqrt (500 * 500)) at 1 by (apply sqrt_square; lra).
  apply sqrt_lt_1; lra.
Qed.

(** C5 on a waypoint 1000 m to the east with desired heading 180 degrees,
    commanded in the initial state: the heading target of the reference
    step is the bearing of the goal, not the desired heading. *)
Lemma smart_yaw_heading_target_witness :
  let self := fst (set_waypoint (tf := tf_reference.tf) Run.waypoint init) in
  500 < sqrt ((1000 - 0) * (1000 - 0) + (0 - 0) * (0 - 0)) /\
  ref_q_err (tf := tf_reference.tf) self =
    tf_reference.quaternion_multiply
      (tf_reference.quaternion_from_euler 0 0 (np.arctan2 (0 - 0) (1000 - 0)))
      (tf_reference.quaternion_inverse (1, 0, 0, 0)).
Proof.
  intros self. split; [exact far_waypoint|].
  destruct (smart_yaw_heading_target (tf := tf_reference.tf) self)
    as (target & Hfar & _ & E & _).
  rewrite E, (Hfar far_waypoint). reflexivity.
Defined.

(** ** Worked examples *)

Example clip_high : np.clip 3000 (-600) 600 = 600.
Proof. unfold np.clip. rewrite Rmax_left by lra. apply Rmin_left. lra. Qed.

Example clip_inside : np.clip (-42) (-600) 600 = -42.
Proof. unfold np.clip. rewrite Rmax_left by lra. apply Rmin_right. lra. Qed.

(** The first call uses the nominal timestep of the constructor. *)
Example first_timestep : odom_timestep (Run.odom Run.t1 0 0) init = 0.02.
Proof. reflexivity. Qed.

Example stamps_20ms : rospy.sub_to_sec Run.t2 Run.t1 = 0.02.
Proof.
  rewrite sub_to_sec_nsec.
  replace (rospy.to_nsec Run.t2 - rospy.to_nsec Run.t1)%Z with 20000000%Z
    by reflexivity.
  lra.
Qed.

(** A surge force of 1000 N on the mapping [B0]: the first thruster would
    need 1000 N, the command is scaled to 220 N and the achieved wrench
    shrinks with it. *)
Example saturated_command :
  exists command,
    thruster_mapper (la := pinv_reference.la) init (1000, 0, 0) Run.B0 = Some command /\
    command = np.scale (220 / 1000) [1000; 0; 0; 0] /\
    np.mv_3N Run.B0 command = (220, 0, 0).
Proof.
  assert (E : min_energy_command (la := pinv_reference.la) (1000, 0, 0) Run.B0
              = [1000; 0; 0; 0]).
  { unfold min_energy_command. cbn [npl.pinv pinv_reference.la].
    rewrite pinv_B0. cbn [np.mv_N3 map V3.dot]. list_entrywise; ring. }
  assert (M : np.max (map Rabs (min_energy_command (la := pinv_reference.la)
                                  (1000, 0, 0) Run.B0)) = Some 1000).
  { rewrite E. cbn [map np.max fold_left].
    rewrite Rabs_R0, (Rabs_pos_eq 1000) by lra.
    rewrite !(Rmax_left 1000 0) by lra. reflexivity. }
  exists (np.scale (220 / 1000) [1000; 0; 0; 0]). split; [|split].
  - rewrite (thruster_mapper_scaled init (1000, 0, 0) Run.B0 1000 M)
      by (rewrite thrust_max_init; lra).
    rewrite E, thrust_max_init. reflexivity.
  - reflexivity.
  - unfold Run.B0. cbn [np.scale map np.mv_3N np.dot]. entrywise; field.
Qed.

(** ** Saturation of the command, in exact arithmetic and on binary64 values *)

Module Saturation.
Import Floats.
Import Binary64Facts Binary64Order.

(** C2 (as the code has it).  [thruster_mapper] returns the minimum-energy
    solution as it is when its largest absolute entry [command_max] is not
    above [thrust_max], and otherwise the solution with every entry
    multiplied by the one quotient [thrust_max / command_max], so that the
    direction is kept.  In exact arithmetic, for a limit that is not
    negative, every entry of the returned command is then within
    [thrust_max], and the largest absolute entry of a scaled command is
    [thrust_max].  On binary64 values the solution that is returned
    unscaled is within [thrust_max] as well (no NaN present); the scaled
    command is the rounded products with the rounded quotient, and the
    code does nothing more to bound it. *)
Theorem thruster_mapper_scales_uniformly
  {la : npl.Linalg} (self : MRAC_Controller) (wrench : vec3) (B : mat3N)
  (pinv64 : Binary64.fmat3N -> list Binary64.fvec3) (thrust_max64 : float)
  (wrench64 : Binary64.fvec3) (B64 : Binary64.fmat3N) :
  (0 <= thrust_max self ->
   npl.pinv B <> [] ->
   exists command command_max,
     np.max (map Rabs (min_energy_command wrench B)) = Some command_max /\
     thruster_mapper self wrench B = Some command /\
     Alloc.within (thrust_max self) command /\
     (thrust_max self < command_max ->
        command = np.scale (thrust_max self / command_max) (min_energy_command wrench B) /\
        0 <= thrust_max self / command_max < 1 /\
        (0 < thrust_max self -> 0 < thrust_max self / command_max) /\
        np.max (map Rabs command) = Some (thrust_max self))) /\
  (let solution := Binary64.min_energy_command pinv64 wrench64 B64 in
   forall command : list float,
     Binary64.thruster_mapper pinv64 thrust_max64 wrench64 B64 = Some command ->
     exists command_max : float,
       Binary64.max (map abs solution) = Some command_max /\
       (((thrust_max64 <? command_max)%float = false /\
         command = solution /\
         (is_nan thrust_max64 = false ->
          existsb is_nan solution = false ->
          forallb (fun c => (abs c <=? thrust_max64)%float) command = true))
        \/
        ((thrust_max64 <? command_max)%float = true /\
         command = map (fun c => (thrust_max64 / command_max * c)%float) solution))).
Proof.
  split; [apply saturation_exact|].
  intros solution command H.
  destruct (mapper_cases _ _ _ _ _ H) as (m & Hm & [(Hlt & ->) | (Hlt & ->)]);
    exists m; (split; [exact Hm|]).
  - left. split; [exact Hlt|]. split; [reflexivity|].
    intros Ht Hn. now apply within_limit with m.
  - right. split; [exact Hlt | reflexivity].
Qed.

(** C2, refuted.  The limit 220 of the constructor and a surge force of
    400 N on three thrusters along the axes: the solution [400, 0, 0, 0]
    exceeds the limit, the quotient 220 / 400 is rounded to 0.55, and
    0.55 * 400 is rounded to the binary64 value next above 220.  The
    infinity norm of the returned command is above [thrust_max].  For
    300 N it is the value next below 220: it is not [thrust_max]
    either. *)
Lemma thruster_mapper_exceeds_thrust_max :
  (let mapper w :=
     Binary64.thruster_mapper (fun _ => Binary64.P_axes) 220 w Binary64.B_axes in
   let above := 0x1.b800000000001p+7 in
   let below := 0x1.b7fffffffffffp+7 in
   Binary64.min_energy_command (fun _ => Binary64.P_axes) (400, 0, 0) Binary64.B_axes
     = [400; 0; 0; 0] /\
   mapper (400, 0, 0) = Some [above; 0; 0; 0] /\
   Binary64.max (map abs [above; 0; 0; 0]) = Some above /\
   (220 <? above) = true /\
   (above <=? 220) = false /\
   mapper (300, 0, 0) = Some [below; 0; 0; 0] /\
   Binary64.max (map abs [below; 0; 0; 0]) = Some below /\
   (below <? 220) = true /\
   (below =? 220) = false)%float.
Proof. repeat split; vm_compute; reflexivity. Qed.

(** The theorem in exact arithmetic on a surge force of 1000 N, beyond the
    envelope, and on binary64 values on a wrench within it. *)
Lemma thruster_mapper_scales_uniformly_witness :
  (0 <= thrust_max init /\
   npl.pinv (Linalg := pinv_reference.la) Run.B0 <> [] /\
   exists command command_max,
     np.max (map Rabs (min_energy_command (la := pinv_reference.la) (1000, 0, 0) Run.B0))
       = Some command_max /\
     thruster_mapper (la := pinv_reference.la) init (1000, 0, 0) Run.B0 = Some command /\
     Alloc.within (thrust_max init) command /\
     (thrust_max init < command_max ->
        command = np.scale (thrust_max init / command_max)
                    (min_energy_command (la := pinv_reference.la) (1000, 0, 0) Run.B0) /\
        0 <= thrust_max init / command_max < 1 /\
        (0 < thrust_max init -> 0 < thrust_max init / command_max) /\
        np.max (map Rabs command) = Some (thrust_max init))) /\
  (Binary64.thruster_mapper (fun _ => Binary64.P_axes) 220 (100, -50, 3)
     Binary64.B_axes = Some [100; -50; 3; 0] /\
   is_nan 220 = false /\
   existsb is_nan [100; -50; 3; 0] = false /\
   forallb (fun c => abs c <=? 220) [100; -50; 3; 0] = true)%float.
Proof.
  destruct (thruster_mapper_scales_uniformly (la := pinv_reference.la)
              init (1000, 0, 0) Run.B0
              (fun _ => Binary64.P_axes) 220%float (100%float, (-50)%float, 3%float)
              Binary64.B_axes)
    as [Hexact Hbinary].
  split.
  - split; [exact thrust_max_init_nonneg|]. split; [exact pinv_B0_nonempty|].
    exact (Hexact thrust_max_init_nonneg pinv_B0_nonempty).
  - assert (E : (Binary64.thruster_mapper (fun _ => Binary64.P_axes) 220
                   (100, -50, 3) Binary64.B_axes = Some [100; -50; 3; 0])%float)
      by (vm_compute; reflexivity).
    split; [exact E|]. split; [reflexivity|]. split; [reflexivity|].
    destruct (Hbinary _ E) as (m & Hm & [(_ & _ & Hin) | (Hlt & _)]).
    + exact (Hin eq_refl eq_refl).
    + apply (f_equal (fun o => match o with Some x => (220 <? x)%float | None => false end))
        in Hm.
      rewrite Hlt in Hm. vm_compute in Hm. discriminate Hm.
Defined.

End Saturation.

(** ** The published wrench on binary64 values *)

Module Binary64TickFacts.
Import Floats.
Import Binary64Tick Binary64Facts Binary64Order.
Local Open Scope float_scope.

(** C7 (as the code has it).  Each of the three components a tick
    publishes is [np.clip(., -600, 600)] of the component of the
    body-frame wrench.  It is NaN exactly when that component is, and
    then it is that NaN; in every other case, whatever the states are, it
    lies within [-600, 600]. *)
Theorem published_wrench_saturated_unless_nan (Rm : fmat3) (wrench : fvec3) :
  Forall2
    (fun b f =>
       f = clip b (-600) 600 /\
       is_nan f = is_nan b /\
       (is_nan b = true -> f = b) /\
       (is_nan b = false -> (-600 <=? f) && (f <=? 600) = true))
    (components (flipped Rm wrench)) (components (body_wrench Rm wrench)).
Proof.
  unfold body_wrench. destruct (flipped Rm wrench) as [[b0 b1] b2]. simpl.
  repeat (apply Forall2_cons; [split; [reflexivity | apply clip_600]|]).
  apply Forall2_nil.
Qed.

(** C7, refuted.  One odometry message of finite numbers: the vehicle
    heads along the world x axis ([R] is the identity, the yaw error 0) at
    the position (2^1023, 0), the reference standing at the origin at
    rest.  The proportional term overflows to [-infinity] in x; in
    [R.T.dot(wrench)] the zeros of [R.T] times that infinity are NaN, and
    the force y and the torque z are published as NaN, outside
    [-600, 600]. *)
Lemma published_wrench_nan :
  let position : fvec2 := (0x1p+1023, 0) in
  let wrench := pd_wrench identity kp_body kd_body (err (0, 0) position 0) (0, 0, 0) in
  forallb is_finite [0x1p+1023; 600; 700; 650; 750; 1; 0] = true /\
  wrench = (neg_infinity, 0, 0) /\
  flipped identity wrench = (neg_infinity, nan, nan) /\
  body_wrench identity wrench = (-600, nan, nan) /\
  map (fun f => (-600 <=? f) && (f <=? 600)) (components (body_wrench identity wrench))
  = [true; false; false].
Proof. repeat split; vm_compute; reflexivity. Qed.

(** The theorem on a wrench of finite numbers: the surge force is cut to
    600 N, the other two components change their sign only. *)
Lemma published_wrench_saturated_unless_nan_witness :
  components (flipped identity (1000, -50, 3)) = [1000; 50; -3] /\
  components (body_wrench identity (1000, -50, 3)) = [600; 50; -3] /\
  existsb is_nan [1000; 50; -3] = false /\
  Forall2
    (fun b f =>
       f = clip b (-600) 600 /\
       is_nan f = is_nan b /\
       (is_nan b = true -> f = b) /\
       (is_nan b = false -> (-600 <=? f) && (f <=? 600) = true))
    [1000; 50; -3] [600; 50; -3].
Proof.
  split; [vm_compute; reflexivity|]. split; [vm_compute; reflexivity|].
  split; [reflexivity|].
  exact (published_wrench_saturated_unless_nan identity (1000, -50, 3)).
Defined.

End Binary64TickFacts.

(** * Further properties *)

(** ** The allocator *)

Lemma dot_scale (b : list R) (k : R) (c : list R) :
  np.dot b (np.scale k c) = k * np.dot b c.
Proof.
  revert c; induction b as [|x b IH]; intros [|y c]; simpl; try ring.
  fold (np.scale k c). rewrite IH. ring.
Qed.

Lemma mv_3N_scale (B : mat3N) (k : R) (c : list R) :
  np.mv_3N B (np.scale k c) = V3.scale (np.mv_3N B c) k.
Proof.
  destruct B as [[b0 b1] b2]. simpl. rewrite !dot_scale. entrywise; ring.
Qed.

Lemma scale_one (c : list R) : np.scale 1 c = c.
Proof.
  unfold np.scale. induction c as [|x c IH]; simpl; [reflexivity|].
  rewrite IH. f_equal. ring.
Qed.

Lemma mv_N3_zero (P : list vec3) : np.mv_N3 P (0, 0, 0) = repeat 0 (length P).
Proof.
  unfold np.mv_N3.
  induction P as [|[[p0 p1] p2] P IH]; cbn [map length repeat]; [reflexivity|].
  rewrite IH. f_equal. cbn [V3.dot]. ring.
Qed.

Lemma fold_left_Rmax_zeros (n : nat) : fold_left Rmax (repeat 0 n) 0 = 0.
Proof.
  induction n as [|n IH]; simpl; [reflexivity|].
  rewrite Rmax_left by lra. exact IH.
Qed.

Lemma max_abs_zeros (n : nat) :
  n <> 0%nat -> np.max (map Rabs (repeat 0 n)) = Some 0.
Proof.
  destruct n as [|n]; [congruence|]. intros _. simpl.
  rewrite Rabs_R0. f_equal.
  replace (map Rabs (repeat 0 n)) with (repeat 0 n).
  - apply fold_left_Rmax_zeros.
  - induction n as [|n IH]; simpl; [reflexivity|]. now rewrite Rabs_R0, <- IH.
Qed.

Lemma dot_zeros (b : list R) (n : nat) : np.dot b (repeat 0 n) = 0.
Proof.
  revert n; induction b as [|x b IH]; intros [|n]; simpl; try reflexivity.
  rewrite IH. ring.
Qed.

Section AllocatorMore.

Context {la : npl.Linalg}.

(** The two ways [thruster_mapper] returns. *)
Lemma thruster_mapper_cases
  (self : MRAC_Controller) (wrench : vec3) (B : mat3N) (command : list R) :
  thruster_mapper self wrench B = Some command ->
  exists m,
    np.max (map Rabs (min_energy_command wrench B)) = Some m /\
    ((m <= thrust_max self /\ command = min_energy_command wrench B) \/
     (thrust_max self < m /\
      command = np.scale (thrust_max self / m) (min_energy_command wrench B))).
Proof.
  unfold thruster_mapper.
  destruct (np.max (map Rabs (min_energy_command wrench B))) as [m|]; [|discriminate].
  intros H. exists m. split; [reflexivity|].
  destruct (Rlt_dec (thrust_max self) m) as [Hlt | Hge]; injection H as <-.
  - right. auto.
  - left. split; [lra | reflexivity].
Qed.

(** The minimum-energy solution of a mapping of full row rank achieves
    the wrench. *)
Lemma solution_achieves (wrench : vec3) (B : mat3N) :
  Alloc.full_row_rank B -> Alloc.is_pinv B (npl.pinv B) ->
  np.mv_3N B (min_energy_command wrench B) = wrench.
Proof.
  intros Hr Hp. unfold min_energy_command. rewrite mv_3N_mv_N3.
  rewrite (pinv_right_inverse _ _ Hr Hp).
  destruct wrench as [[w0 w1] w2]. simpl. entrywise; ring.
Qed.

(** X1.  For a mapping of full row rank, the wrench achieved by the
    command [thruster_mapper] returns is always the requested wrench
    times one factor between 0 and 1: saturation shrinks the wrench and
    keeps its direction. *)
Theorem achieved_wrench_proportional
  (self : MRAC_Controller) (wrench : vec3) (B : mat3N) (command : list R) :
  0 <= thrust_max self ->
  Alloc.full_row_rank B ->
  Alloc.is_pinv B (npl.pinv B) ->
  thruster_mapper self wrench B = Some command ->
  exists k,
    0 <= k <= 1 /\
    command = np.scale k (min_energy_command wrench B) /\
    np.mv_3N B command = V3.scale wrench k.
Proof.
  intros Ht Hr Hp H.
  destruct (thruster_mapper_cases _ _ _ _ H) as (m & Hm & [(Hle & ->) | (Hlt & ->)]).
  - exists 1. split; [lra|]. split; [now rewrite scale_one|].
    rewrite (solution_achieves _ _ Hr Hp).
    destruct wrench as [[w0 w1] w2]. simpl. entrywise; ring.
  - exists (thrust_max self / m).
    assert (Hm0 : 0 < m) by lra.
    split; [|split; [reflexivity|]].
    + split.
      * unfold Rdiv. apply Rmult_le_pos; [exact Ht | left; now apply Rinv_0_lt_compat].
      * apply Rmult_le_reg_r with m; [exact Hm0|]. field_simplify; lra.
    + now rewrite mv_3N_scale, (solution_achieves _ _ Hr Hp).
Qed.

(** The command for the zero wrench. *)
Lemma zero_wrench_command (self : MRAC_Controller) (B : mat3N) :
  0 <= thrust_max self -> npl.pinv B <> [] ->
  thruster_mapper self (0, 0, 0) B = Some (repeat 0 (length (npl.pinv B))).
Proof.
  intros Ht HP.
  assert (E : min_energy_command (0, 0, 0) B = repeat 0 (length (npl.pinv B)))
    by apply mv_N3_zero.
  rewrite <- E. apply thruster_mapper_unscaled with 0; [|exact Ht].
  rewrite E. apply max_abs_zeros.
  destruct (npl.pinv B); [congruence | discriminate].
Qed.

(** X3.  The zero wrench is allocated to the zero command, one zero per
    thruster, and that command achieves the zero wrench under every
    mapping. *)
Theorem thruster_mapper_zero_wrench (self : MRAC_Controller) (B : mat3N) :
  0 <= thrust_max self -> npl.pinv B <> [] ->
  thruster_mapper self (0, 0, 0) B = Some (repeat 0 (length (npl.pinv B))) /\
  forall B' : mat6N,
    np.mv_6N B' (repeat 0 (length (npl.pinv B))) = ((0, 0, 0), (0, 0, 0)).
Proof.
  intros Ht HP. split; [now apply zero_wrench_command|].
  intros [[[b0 b1] b2] [[b3 b4] b5]]. simpl. now rewrite !dot_zeros.
Qed.

End AllocatorMore.

(** ** The reference step and the tick *)

Section StepFacts.

Context {tf : trns.Transformations} {la : npl.Linalg}.

(** The assignments of a completed reference step. *)
Lemma increment_reference_equations (self self' : MRAC_Controller) :
  increment_reference self = Some self' ->
  exists command,
    thruster_mapper self (ref_wrench self) (B_3dof (ref_B self)) = Some command /\
    a_ref self' =
      V2.div (V2.sub (V6.head2 (np.mv_6N (ref_B self) command)) (V3.head2 (ref_drag self)))
             (mass_ref self) /\
    aa_ref self' =
      (V6.i5 (np.mv_6N (ref_B self) command) - V3.i2 (ref_drag self)) / inertia_ref self /\
    p_ref self' = V2.add (p_ref self) (V2.scale (v_ref self) (timestep self)) /\
    q_ref self' =
      trns.quaternion_from_euler 0 0 (y_ref self + w_ref self * timestep self) /\
    v_ref self' = V2.add (v_ref self) (V2.scale (a_ref self') (timestep self)) /\
    w_ref self' = w_ref self + aa_ref self' * timestep self.
Proof.
  intros H. open_step H. exists command. repeat split.
Qed.

(** The fields a reference step and a tick keep. *)
Lemma increment_reference_keeps (self self' : MRAC_Controller) :
  increment_reference self = Some self' ->
  same_configuration self self' /\
  dist_est self' = dist_est self /\ drag_est self' = drag_est self /\
  p_des self' = p_des self /\ q_des self' = q_des self /\
  traversal self' = traversal self /\ timestep self' = timestep self /\
  position self' = position self /\ orientation self' = orientation self /\
  lin_vel self' = lin_vel self /\ ang_vel self' = ang_vel self /\
  last_odom self' = last_odom self.
Proof.
  intros H. open_step H. unfold same_configuration. repeat split.
Qed.

Lemma get_command_keeps
  (msg : Odometry) (self self' : MRAC_Controller) (w : WrenchStamped) (p : PoseStamped) :
  get_command msg self = Some (self', w, p) ->
  same_configuration self self' /\
  p_des self' = p_des self /\ q_des self' = q_des self /\
  traversal self' = traversal self.
Proof.
  intros H. open_tick H. unfold same_configuration. repeat split.
Qed.

(** The vehicle state a completed tick stores. *)
Lemma tick_vehicle_state
  (msg : Odometry) (self self' : MRAC_Controller) (w : WrenchStamped) (p : PoseStamped) :
  get_command msg self = Some (self', w, p) ->
  position self' = (pt_x (pose_position msg), pt_y (pose_position msg)) /\
  orientation self' = odom_orientation msg /\
  lin_vel self' = lin_vel (unpack msg self) /\
  ang_vel self' = ang_vel (unpack msg self).
Proof.
  intros H. open_tick H. repeat split.
Qed.

(** X4.  A completed reference step assigns the six fields of the
    reference state and nothing else: the configuration, the estimates,
    the desired pose, the timestep and the vehicle state keep their
    values. *)
Theorem increment_reference_touches_reference_only (self self' : MRAC_Controller) :
  increment_reference self = Some self' ->
  same_configuration self self' /\
  dist_est self' = dist_est self /\ drag_est self' = drag_est self /\
  p_des self' = p_des self /\ q_des self' = q_des self /\
  traversal self' = traversal self /\ timestep self' = timestep self /\
  position self' = position self /\ orientation self' = orientation self /\
  lin_vel self' = lin_vel self /\ ang_vel self' = ang_vel self /\
  last_odom self' = last_odom self.
Proof. apply increment_reference_keeps. Qed.

(** X5.  A completed tick keeps the configuration, the desired pose and
    the recorded traversal, and replaces the stored vehicle state by the
    message's: its position, its orientation, its body-frame twist
    rotated by the orientation's matrix, and the message itself as the
    last odometry. *)
Theorem get_command_overwrites_vehicle_state
  (msg : Odometry) (self self' : MRAC_Controller) (w : WrenchStamped) (p : PoseStamped) :
  get_command msg self = Some (self', w, p) ->
  let Rm := M3.of_mat4 (trns.quaternion_matrix (odom_orientation msg)) in
  (same_configuration self self' /\
   p_des self' = p_des self /\ q_des self' = q_des self /\
   traversal self' = traversal self) /\
  position self' = (pt_x (pose_position msg), pt_y (pose_position msg)) /\
  orientation self' = odom_orientation msg /\
  lin_vel self' =
    V3.head2 (M3.mv Rm (v3_x (twist_linear msg), v3_y (twist_linear msg),
                        v3_z (twist_linear msg))) /\
  ang_vel self' =
    V3.i2 (M3.mv Rm (v3_x (twist_angular msg), v3_y (twist_angular msg),
                     v3_z (twist_angular msg))) /\
  last_odom self' = Some msg.
Proof.
  intros H Rm. split; [exact (get_command_keeps _ _ _ _ _ H)|].
  open_tick H. repeat split.
Qed.

(** X6.  The first state update, when no odometry has been stored yet,
    reads no stamp: it runs with the timestep the controller holds (the
    nominal 0.02 s of the constructor) and stores the message for the
    next one. *)
Theorem first_update_keeps_timestep
  (msg : Odometry) (self self' : MRAC_Controller) (w : WrenchStamped) (p : PoseStamped) :
  last_odom self = None ->
  get_command msg self = Some (self', w, p) ->
  timestep (unpack msg self) = timestep self /\
  timestep self' = timestep self /\
  last_odom self' = Some msg /\
  (self = init -> timestep self' = 0.02).
Proof.
  intros Hlast H.
  destruct (get_command_timestep _ _ _ _ _ H) as (Et & El).
  assert (E : odom_timestep msg self = timestep self)
    by (unfold odom_timestep; now rewrite Hlast).
  repeat split.
  - exact E.
  - now rewrite Et.
  - exact El.
  - intros ->. rewrite Et, E. reflexivity.
Qed.

(** X7.  The wrench of a tick does not depend on the stamp of the
    message, and neither does whether the tick completes: the timestep
    enters only the estimates and the reference left for the next tick. *)
Theorem published_wrench_ignores_stamp
  (t : Time) (msg : Odometry) (self : MRAC_Controller) :
  published_wrench (restamp t msg) self = published_wrench msg self.
Proof.
  unfold published_wrench, get_command, increment_reference.
  change (thruster_mapper (update_estimates (unpack (restamp t msg) self))
            (ref_wrench (update_estimates (unpack (restamp t msg) self)))
            (B_3dof (ref_B (update_estimates (unpack (restamp t msg) self)))))
    with (thruster_mapper (update_estimates (unpack msg self))
            (ref_wrench (update_estimates (unpack msg self)))
            (B_3dof (ref_B (update_estimates (unpack msg self))))).
  destruct (thruster_mapper _ _ _); reflexivity.
Qed.

(** X8.  The reference model runs open loop: a reference step reads
    neither the vehicle state nor the estimates.  With any other
    position, orientation, velocity, angular velocity, [dist_est] and
    [drag_est], it fails or completes alike and yields the same
    reference state. *)
Theorem reference_step_ignores_vehicle (self : MRAC_Controller)
  (position' : vec2) (orientation' : quat) (lin_vel' : vec2) (ang_vel' : R)
  (dist_est' : vec3) (drag_est' : vec5) :
  option_map reference_state
    (increment_reference
       (with_vehicle self position' orientation' lin_vel' ang_vel' dist_est' drag_est'))
  = option_map reference_state (increment_reference self).
Proof.
  unfold increment_reference.
  set (s := with_vehicle self position' orientation' lin_vel' ang_vel' dist_est' drag_est').
  change (thruster_mapper s (ref_wrench s) (B_3dof (ref_B s)))
    with (thruster_mapper self (ref_wrench self) (B_3dof (ref_B self))).
  destruct (thruster_mapper _ _ _); reflexivity.
Qed.

(** X9.  Farther from the goal than [heading_threshold], the reference
    step does not read the desired orientation: with any other [q_des] it
    does the same, [q_des] apart. *)
Theorem far_step_ignores_q_des (self : MRAC_Controller) (q : quat) :
  heading_threshold self < npl.norm (V2.sub (p_des self) (p_ref self)) ->
  increment_reference (with_q_des self q) =
  option_map (fun s => with_q_des s q) (increment_reference self).
Proof.
  intros Hfar.
  assert (Hq : ref_q_err (with_q_des self q) = ref_q_err self).
  { unfold ref_q_err. cbn [with_q_des p_des p_ref heading_threshold q_ref q_des].
    destruct (Rle_dec _ _); [lra | reflexivity]. }
  assert (Hw : ref_wrench (with_q_des self q) = ref_wrench self).
  { unfold ref_wrench. rewrite Hq. reflexivity. }
  unfold increment_reference. rewrite Hw.
  change (thruster_mapper (with_q_des self q) (ref_wrench self)
            (B_3dof (ref_B (with_q_des self q))))
    with (thruster_mapper self (ref_wrench self) (B_3dof (ref_B self))).
  destruct (thruster_mapper _ _ _); reflexivity.
Qed.

End StepFacts.

(** ** Rest, drag and waypoints *)

Lemma M3_mv_zero (m : mat3) : M3.mv m (0, 0, 0) = (0, 0, 0).
Proof.
  destruct m as [[[[a b] c] [[d e] f]] [[g h] i]]. simpl. entrywise; ring.
Qed.

Lemma norm_zero (a : vec2) : npl.norm (V2.sub a a) = 0.
Proof.
  destruct a as [x y]. simpl.
  replace ((x - x) * (x - x) + (y - y) * (y - y)) with 0 by ring. apply sqrt_0.
Qed.

Section RestFacts.

Context {tf : trns.Transformations} {la : npl.Linalg}.

Lemma ref_drag_at_rest (self : MRAC_Controller) :
  v_ref self = (0, 0) -> w_ref self = 0 -> ref_drag self = (0, 0, 0).
Proof.
  intros Hv Hw. unfold ref_drag, ref_twist_body. rewrite Hv, Hw.
  cbn [V3.concat]. rewrite M3_mv_zero.
  destruct (D_body self) as [[d0 d1] d2]. cbn [V3.mul V3.abs].
  rewrite Rabs_R0.
  replace (d0 * 0 * 0, d1 * 0 * 0, d2 * 0 * 0) with (0, 0, 0) by (entrywise; ring).
  apply M3_mv_zero.
Qed.

Lemma ref_wrench_at_goal (self : MRAC_Controller) :
  p_ref self = p_des self -> v_ref self = (0, 0) -> w_ref self = 0 ->
  0 <= heading_threshold self ->
  V3.i2 (trns.euler_from_quaternion
           (trns.quaternion_multiply (q_des self)
              (trns.quaternion_inverse (q_ref self)))) = 0 ->
  ref_wrench self = (0, 0, 0).
Proof.
  intros Hp Hv Hw Ht Hy.
  assert (Hq : ref_q_err self =
    trns.quaternion_multiply (q_des self) (trns.quaternion_inverse (q_ref self))).
  { unfold ref_q_err. rewrite Hp, norm_zero.
    destruct (Rle_dec _ _); [reflexivity | contradiction]. }
  unfold ref_wrench. rewrite Hq, Hy, Hp, Hv, Hw.
  destruct (M3.mm (M3.mm (R_ref self) (kp_body self)) (M3.T (R_ref self)))
    as [[[[a b] c] [[d e] f]] [[g h] i]].
  destruct (M3.mm (M3.mm (R_ref self) (kd_body self)) (M3.T (R_ref self)))
    as [[[[a' b'] c'] [[d' e'] f']] [[g' h'] i']].
  destruct (p_des self) as [x y]. simpl. entrywise; ring.
Qed.

(** Two controllers with the same fields are the same controller. *)
Lemma controller_ext (a b : MRAC_Controller) :
  same_configuration a b ->
  dist_est b = dist_est a -> drag_est b = drag_est a ->
  p_des b = p_des a -> q_des b = q_des a ->
  traversal b = traversal a -> timestep b = timestep a ->
  position b = position a -> orientation b = orientation a ->
  lin_vel b = lin_vel a -> ang_vel b = ang_vel a ->
  last_odom b = last_odom a ->
  reference_state b = reference_state a ->
  b = a.
Proof.
  destruct a, b. unfold same_configuration, reference_state.
  cbn -[Rplus Rmult Rminus Rdiv Ropp Rinv IZR].
  intros Hc. repeat match goal with H : _ /\ _ |- _ => destruct H end.
  intros. subst.
  match goal with H : (_, _, _, _, _, _) = _ |- _ => injection H as -> -> -> -> -> -> end.
  reflexivity.
Qed.

(** The step of a reference that stands on the waypoint. *)
Lemma station_step (self : MRAC_Controller) :
  p_ref self = p_des self -> v_ref self = (0, 0) -> w_ref self = 0 ->
  V3.i2 (trns.euler_from_quaternion
           (trns.quaternion_multiply (q_des self)
              (trns.quaternion_inverse (q_ref self)))) = 0 ->
  trns.quaternion_from_euler 0 0 (y_ref self) = q_ref self ->
  0 <= heading_threshold self ->
  0 <= thrust_max self ->
  mass_ref self <> 0 -> inertia_ref self <> 0 ->
  npl.pinv (B_3dof (ref_B self)) <> [] ->
  exists self',
    thruster_mapper self (ref_wrench self) (B_3dof (ref_B self)) =
      Some (repeat 0 (length (npl.pinv (B_3dof (ref_B self))))) /\
    increment_reference self = Some self' /\
    reference_state self' = (p_ref self, (0, 0), q_ref self, 0, (0, 0), 0).
Proof.
  intros Hp Hv Hw Hy Hq Hth Ht Hm Hi HP.
  destruct (increment_reference self) as [self'|] eqn:E;
    [|apply increment_reference_None in E; contradiction].
  exists self'.
  destruct (increment_reference_equations _ _ E)
    as (command & Hc & Ea & Eaa & Epr & Eqr & Evr & Ewr).
  rewrite (ref_wrench_at_goal self Hp Hv Hw Hth Hy) in Hc.
  pose proof (zero_wrench_command self _ Ht HP) as Hz.
  rewrite (ref_wrench_at_goal self Hp Hv Hw Hth Hy).
  split; [exact Hz|]. split; [reflexivity|].
  rewrite Hz in Hc. injection Hc as Hc. subst command.
  rewrite (ref_drag_at_rest self Hv Hw) in Ea, Eaa.
  assert (E0 : forall n, np.mv_6N (ref_B self) (repeat 0 n) = ((0, 0, 0), (0, 0, 0))).
  { intros n. destruct (ref_B self) as [[[b0 b1] b2] [[b3 b4] b5]]. simpl.
    now rewrite !dot_zeros. }
  rewrite E0 in Ea, Eaa.
  assert (Ea0 : a_ref self' = (0, 0)).
  { rewrite Ea. cbn [V2.div V2.sub V6.head2 V3.head2 fst snd].
    entrywise; field; exact Hm. }
  assert (Eaa0 : aa_ref self' = 0).
  { rewrite Eaa. cbn [V6.i5 V3.i2 fst snd]. field. exact Hi. }
  rewrite Ea0 in Evr. rewrite Eaa0 in Ewr. rewrite Hv in Epr, Evr. rewrite Hw in Ewr, Eqr.
  assert (Ep' : p_ref self' = p_ref self).
  { rewrite Epr. destruct (p_ref self) as [x y].
    cbn [V2.add V2.scale]. entrywise; ring. }
  assert (Ev' : v_ref self' = (0, 0)).
  { rewrite Evr. cbn [V2.add V2.scale]. entrywise; ring. }
  assert (Ew' : w_ref self' = 0) by (rewrite Ewr; ring).
  assert (Eq' : q_ref self' = q_ref self).
  { rewrite Eqr, <- Hq. f_equal. ring. }
  unfold reference_state. now rewrite Ep', Ev', Ew', Eq', Ea0, Eaa0.
Qed.

(** X10.  The waypoint at rest is a fixed point of the reference model.
    When the reference stands on the desired position with zero velocity
    and angular velocity and no heading error, its orientation being the
    yaw-only quaternion of its own yaw (as a reference step leaves it),
    the allocator returns the zero command, one zero per thruster, and the
    step leaves position, orientation, velocity and angular velocity
    where they are, with zero accelerations.  The controller the step
    returns is returned again by the next step. *)
Theorem reference_holds_station (self : MRAC_Controller) :
  p_ref self = p_des self -> v_ref self = (0, 0) -> w_ref self = 0 ->
  V3.i2 (trns.euler_from_quaternion
           (trns.quaternion_multiply (q_des self)
              (trns.quaternion_inverse (q_ref self)))) = 0 ->
  trns.quaternion_from_euler 0 0 (y_ref self) = q_ref self ->
  0 <= heading_threshold self ->
  0 <= thrust_max self ->
  mass_ref self <> 0 -> inertia_ref self <> 0 ->
  npl.pinv (B_3dof (ref_B self)) <> [] ->
  exists self',
    thruster_mapper self (ref_wrench self) (B_3dof (ref_B self)) =
      Some (repeat 0 (length (npl.pinv (B_3dof (ref_B self))))) /\
    increment_reference self = Some self' /\
    reference_state self' = (p_ref self, (0, 0), q_ref self, 0, (0, 0), 0) /\
    increment_reference self' = Some self'.
Proof.
  intros Hp Hv Hw Hy Hq Hth Ht Hm Hi HP.
  destruct (station_step self Hp Hv Hw Hy Hq Hth Ht Hm Hi HP) as (self' & Hc & E & Er).
  exists self'. split; [exact Hc|]. split; [exact E|]. split; [exact Er|].
  destruct (increment_reference_keeps _ _ E)
    as (Hcfg & _ & _ & Hpd & Hqd & _).
  pose proof Hcfg as
    (_ & _ & _ & _ & _ & Hth' & _ & Hm' & Hi' & Ht' & _ & Hdir & Hlev & _).
  unfold reference_state in Er. injection Er as Ep' Ev' Eq' Ew' Ea' Eaa'.
  assert (Ey : y_ref self' = y_ref self) by (unfold y_ref; now rewrite Eq').
  assert (EB : ref_B self' = ref_B self)
    by (unfold ref_B, R_ref; now rewrite Eq', Hdir, Hlev).
  destruct (station_step self') as (self'' & _ & E' & Er').
  - now rewrite Ep', Hpd.
  - exact Ev'.
  - exact Ew'.
  - now rewrite Hqd, Eq'.
  - now rewrite Ey, Eq'.
  - now rewrite Hth'.
  - now rewrite Ht'.
  - now rewrite Hm'.
  - now rewrite Hi'.
  - now rewrite EB.
  - rewrite E'. f_equal.
    destruct (increment_reference_keeps _ _ E')
      as (Hcfg' & Hd & Hg & Hpd' & Hqd' & Htr & Hts & Hpo & Hor & Hlv & Hav & Hlo).
    apply controller_ext; try assumption.
    rewrite Er'. unfold reference_state.
    now rewrite Ev', Ew', Ea', Eaa'.
Qed.

(** The drag of the virtual boat against its twist: the power it takes
    is the sum, over the three body axes, of the coefficient times the
    cube of the speed. *)
Lemma drag_power (self : MRAC_Controller) :
  V3.dot (ref_drag self) (V3.concat (v_ref self) (w_ref self)) =
  V3.dot (V3.mul (V3.mul (D_body self) (ref_twist_body self)) (V3.abs (ref_twist_body self)))
         (ref_twist_body self).
Proof.
  unfold ref_drag, ref_twist_body.
  destruct (R_ref self) as [[[[r00 r01] r02] [[r10 r11] r12]] [[r20 r21] r22]].
  destruct (v_ref self) as [vx vy], (D_body self) as [[d0 d1] d2].
  cbn [M3.T M3.mv V3.concat V3.mul V3.abs V3.dot]. ring.
Qed.

Lemma cubes_nonneg (d0 d1 d2 t0 t1 t2 : R) :
  0 <= d0 -> 0 <= d1 -> 0 <= d2 ->
  0 <= d0 * t0 * Rabs t0 * t0 + d1 * t1 * Rabs t1 * t1 + d2 * t2 * Rabs t2 * t2 /\
  (0 < d0 -> t0 <> 0 ->
   0 < d0 * t0 * Rabs t0 * t0 + d1 * t1 * Rabs t1 * t1 + d2 * t2 * Rabs t2 * t2).
Proof.
  intros H0 H1 H2.
  assert (C : forall d t, 0 <= d -> 0 <= d * t * Rabs t * t).
  { intros d t Hd. replace (d * t * Rabs t * t) with (d * Rabs t * (t * t)) by ring.
    apply Rmult_le_pos; [apply Rmult_le_pos; [exact Hd | apply Rabs_pos]|].
    apply Rle_0_sqr. }
  pose proof (C d0 t0 H0). pose proof (C d1 t1 H1). pose proof (C d2 t2 H2).
  split; [lra|]. intros Hd Ht.
  assert (0 < d0 * t0 * Rabs t0 * t0); [|lra].
  replace (d0 * t0 * Rabs t0 * t0) with (d0 * Rabs t0 * (t0 * t0)) by ring.
  apply Rmult_lt_0_compat; [apply Rmult_lt_0_compat; [exact Hd | now apply Rabs_pos_lt]|].
  now apply Rsqr_pos_lt.
Qed.

(** X11.  The drag of the virtual boat never pushes it along its motion:
    with drag coefficients that are not negative, the drag force and
    torque subtracted in the Euler step have a non-negative product with
    the reference velocity and angular velocity, whatever the matrix of
    the reference orientation is.  The product is positive, so that the
    drag brakes, when the surge coefficient is positive and the boat has
    a surge velocity. *)
Theorem reference_drag_opposes_motion (self self' : MRAC_Controller) :
  0 <= V3.i0 (D_body self) -> 0 <= V3.i1 (D_body self) -> 0 <= V3.i2 (D_body self) ->
  increment_reference self = Some self' ->
  exists command,
    thruster_mapper self (ref_wrench self) (B_3dof (ref_B self)) = Some command /\
    a_ref self' =
      V2.div (V2.sub (V6.head2 (np.mv_6N (ref_B self) command)) (V3.head2 (ref_drag self)))
             (mass_ref self) /\
    aa_ref self' =
      (V6.i5 (np.mv_6N (ref_B self) command) - V3.i2 (ref_drag self)) / inertia_ref self /\
    0 <= V3.dot (ref_drag self) (V3.concat (v_ref self) (w_ref self)) /\
    (0 < V3.i0 (D_body self) -> V3.i0 (ref_twist_body self) <> 0 ->
     0 < V3.dot (ref_drag self) (V3.concat (v_ref self) (w_ref self))).
Proof.
  intros H0 H1 H2 H.
  destruct (increment_reference_equations _ _ H) as (command & Hc & Ea & Eaa & _).
  exists command. split; [exact Hc|]. split; [exact Ea|]. split; [exact Eaa|].
  rewrite drag_power.
  destruct (ref_twist_body self) as [[t0 t1] t2], (D_body self) as [[d0 d1] d2].
  cbn [V3.mul V3.abs V3.dot V3.i0 V3.i1 V3.i2] in *.
  now apply cubes_nonneg.
Qed.

(** X12.  A waypoint command overrides the one before it entirely:
    [set_waypoint] after [set_waypoint] leaves the state, and publishes
    the message, of the second command alone; commanding one waypoint
    twice is commanding it once. *)
Theorem set_waypoint_last_wins (first second : Point) (self : MRAC_Controller) :
  set_waypoint second (fst (set_waypoint first self)) = set_waypoint second self /\
  set_waypoint first (fst (set_waypoint first self)) = set_waypoint first self.
Proof. split; reflexivity. Qed.

(** X13.  A waypoint commanded after a completed tick starts the
    reference from the pose and twist of that tick's message, records the
    distance from the message's position to the waypoint, and keeps the
    estimates the tick left. *)
Theorem waypoint_after_tick
  (msg : Odometry) (wp : Point) (self self' : MRAC_Controller)
  (w : WrenchStamped) (p : PoseStamped) :
  get_command msg self = Some (self', w, p) ->
  let self'' := fst (set_waypoint wp self') in
  let x := pt_x (pose_position msg) in
  let y := pt_y (pose_position msg) in
  p_ref self'' = (x, y) /\
  q_ref self'' = odom_orientation msg /\
  v_ref self'' = lin_vel (unpack msg self) /\
  w_ref self'' = ang_vel (unpack msg self) /\
  a_ref self'' = (0, 0) /\ aa_ref self'' = 0 /\
  traversal self'' = sqrt ((pt_x wp - x) * (pt_x wp - x) + (pt_y wp - y) * (pt_y wp - y)) /\
  dist_est self'' = dist_est self' /\ drag_est self'' = drag_est self'.
Proof.
  intros H self'' x y. open_tick H. repeat split.
Qed.

End RestFacts.

(** ** Sequences of callbacks *)

Lemma same_configuration_refl (a : MRAC_Controller) : same_configuration a a.
Proof. unfold same_configuration. repeat split. Qed.

Lemma same_configuration_trans (a b c : MRAC_Controller) :
  same_configuration a b -> same_configuration b c -> same_configuration a c.
Proof.
  unfold same_configuration. intros Hab Hbc.
  repeat match goal with H : _ /\ _ |- _ => destruct H end.
  repeat split; congruence.
Qed.

Lemma clip_zero : np.clip 0 (-600) 600 = 0.
Proof. unfold np.clip. rewrite Rmax_left by lra. apply Rmin_right. lra. Qed.

Section SpinFacts.

Context {tf : trns.Transformations} {la : npl.Linalg}.

Lemma callback_same_configuration (self self' : MRAC_Controller) :
  callback self self' -> same_configuration self self'.
Proof.
  intros [msg s | msg s s' w p H].
  - unfold same_configuration. repeat split.
  - exact (proj1 (get_command_keeps _ _ _ _ _ H)).
Qed.

Lemma spin_same_configuration (self self' : MRAC_Controller) :
  spin self self' -> same_configuration self self'.
Proof.
  induction 1 as [s | s1 s2 s3 Hc _ IH].
  - apply same_configuration_refl.
  - apply same_configuration_trans with s2; [|exact IH].
    now apply callback_same_configuration.
Qed.

(** X14.  No sequence of waypoint commands and state updates changes the
    configuration: gains, adaptation rates, speed limit, heading
    threshold, mode flag, mass, inertia, thrust limit, thruster geometry
    and the quantities derived from it stay as constructed. *)
Theorem configuration_is_invariant (self self' : MRAC_Controller) :
  spin self self' -> same_configuration self self'.
Proof. apply spin_same_configuration. Qed.

(** The errors of a tick on the reference, at rest. *)
Lemma errors_on_reference (msg : Odometry) (self : MRAC_Controller) :
  p_ref self = (pt_x (pose_position msg), pt_y (pose_position msg)) ->
  v_ref self = (0, 0) -> w_ref self = 0 ->
  twist_linear msg = {| v3_x := 0; v3_y := 0; v3_z := 0 |} ->
  twist_angular msg = {| v3_x := 0; v3_y := 0; v3_z := 0 |} ->
  V3.i2 (trns.euler_from_quaternion
           (trns.quaternion_multiply (q_ref self)
              (trns.quaternion_inverse (odom_orientation msg)))) = 0 ->
  err (unpack msg self) = (0, 0, 0) /\ errdot (unpack msg self) = (0, 0, 0) /\
  lin_vel (unpack msg self) = (0, 0) /\ ang_vel (unpack msg self) = 0.
Proof.
  intros Hp Hv Hw Hl Ha Hy.
  assert (El : lin_vel (unpack msg self) = (0, 0)).
  { cbn [unpack lin_vel]. rewrite Hl. cbn [v3_x v3_y v3_z].
    now rewrite M3_mv_zero. }
  assert (Ea : ang_vel (unpack msg self) = 0).
  { cbn [unpack ang_vel]. rewrite Ha. cbn [v3_x v3_y v3_z].
    now rewrite M3_mv_zero. }
  repeat split; try assumption.
  - unfold err. cbn [unpack p_ref position q_ref orientation].
    rewrite Hy, Hp. cbn [V2.sub V3.concat]. entrywise; ring.
  - unfold errdot. rewrite El, Ea. cbn [unpack v_ref w_ref].
    rewrite Hv, Hw. cbn [V2.sub V3.concat]. entrywise; ring.
Qed.

(** X16.  A vehicle at rest on the reference is left alone.  When the
    message reports the reference position, no heading error and zero
    twist, and the reference itself is at rest, the tick leaves both
    estimates unchanged whatever the adaptation rates, and in PD-only
    mode it publishes the zero wrench. *)
Theorem tick_on_reference_at_rest
  (msg : Odometry) (self self' : MRAC_Controller) (w : WrenchStamped) (p : PoseStamped) :
  p_ref self = (pt_x (pose_position msg), pt_y (pose_position msg)) ->
  v_ref self = (0, 0) -> w_ref self = 0 ->
  twist_linear msg = {| v3_x := 0; v3_y := 0; v3_z := 0 |} ->
  twist_angular msg = {| v3_x := 0; v3_y := 0; v3_z := 0 |} ->
  V3.i2 (trns.euler_from_quaternion
           (trns.quaternion_multiply (q_ref self)
              (trns.quaternion_inverse (odom_orientation msg)))) = 0 ->
  get_command msg self = Some (self', w, p) ->
  dist_est self' = dist_est self /\
  drag_est self' = drag_est self /\
  (only_PD self = true -> w = wrench_msg (0, 0, 0)).
Proof.
  intros Hp Hv Hw Hl Ha Hy H.
  destruct (errors_on_reference msg self Hp Hv Hw Hl Ha Hy) as (Ee & Ed & El & Eav).
  apply get_command_step in H as (Hstep & Ew & _).
  apply increment_reference_frame in Hstep as (Hd & Hg & _).
  split; [|split].
  - rewrite Hd. cbn [update_estimates dist_est]. rewrite Ee.
    change (dist_est (unpack msg self)) with (dist_est self).
    change (ki (unpack msg self)) with (ki self).
    destruct (dist_est self) as [[d0 d1] d2], (ki self) as [[k0 k1] k2].
    cbn [V3.add V3.scale V3.mul]. entrywise; ring.
  - rewrite Hg. cbn [update_estimates drag_est]. rewrite Ee, Ed.
    change (drag_est (unpack msg self)) with (drag_est self).
    change (kg (unpack msg self)) with (kg self).
    destruct (drag_est self) as [[[[g0 g1] g2] g3] g4],
             (kg self) as [[[[k0 k1] k2] k3] k4],
             (drag_regressor (unpack msg self))
               as [[[[[[a00 a01] a02] a03] a04] [[[[a10 a11] a12] a13] a14]]
                   [[[[a20 a21] a22] a23] a24]].
    cbn [V3.add V5.add V5.scale V5.mul M35.Tmv]. entrywise; ring.
  - intros Hpd. rewrite Ew. f_equal.
    unfold world_wrench. cbn [unpack only_PD]. rewrite Hpd.
    unfold pd_wrench. rewrite Ee, Ed, !M3_mv_zero.
    unfold body_wrench. cbn [V3.add].
    replace (0 + 0, 0 + 0, 0 + 0) with (0, 0, 0) by (entrywise; ring).
    rewrite M3_mv_zero, Ropp_0, clip_zero. reflexivity.
Qed.

(** X17.  A state update whose stamp equals the previous one runs with a
    timestep of zero: it integrates nothing.  The estimates and the
    reference position, velocity and angular velocity stay as they
    are. *)
Theorem repeated_stamp_freezes
  (msg last : Odometry) (self self' : MRAC_Controller)
  (w : WrenchStamped) (p : PoseStamped) :
  last_odom self = Some last ->
  rospy.to_nsec (header_stamp msg) = rospy.to_nsec (header_stamp last) ->
  get_command msg self = Some (self', w, p) ->
  timestep self' = 0 /\
  dist_est self' = dist_est self /\ drag_est self' = drag_est self /\
  p_ref self' = p_ref self /\ v_ref self' = v_ref self /\ w_ref self' = w_ref self.
Proof.
  intros Hlast Hst H.
  assert (E0 : odom_timestep msg self = 0).
  { unfold odom_timestep. rewrite Hlast, sub_to_sec_nsec, Hst, Z.sub_diag. lra. }
  apply get_command_step in H as (Hstep & _).
  destruct (increment_reference_keeps _ _ Hstep)
    as (_ & Hd & Hg & _ & _ & _ & Ht & _).
  destruct (increment_reference_equations _ _ Hstep)
    as (command & _ & _ & _ & Epr & _ & Evr & Ewr).
  assert (T2 : timestep (update_estimates (unpack msg self)) = 0) by exact E0.
  rewrite T2 in *.
  repeat split.
  - exact Ht.
  - rewrite Hd. cbn [update_estimates dist_est unpack timestep ki]. rewrite E0.
    destruct (dist_est self) as [[d0 d1] d2], (ki self) as [[k0 k1] k2],
             (err _) as [[e0 e1] e2].
    cbn [V3.add V3.scale V3.mul]. entrywise; ring.
  - rewrite Hg. cbn [update_estimates drag_est unpack timestep kg]. rewrite E0.
    destruct (drag_est self) as [[[[g0 g1] g2] g3] g4], (kg self) as [[[[k0 k1] k2] k3] k4],
             (M35.Tmv _ _) as [[[[m0 m1] m2] m3] m4].
    cbn [V5.add V5.scale V5.mul]. entrywise; ring.
  - rewrite Epr. cbn [update_estimates unpack p_ref v_ref].
    destruct (p_ref self) as [x y], (v_ref self) as [vx vy].
    cbn [V2.add V2.scale]. entrywise; ring.
  - rewrite Evr. cbn [update_estimates unpack v_ref].
    destruct (v_ref self) as [vx vy], (a_ref self') as [ax ay].
    cbn [V2.add V2.scale]. entrywise; ring.
  - rewrite Ewr. cbn [update_estimates unpack w_ref]. ring.
Qed.

End SpinFacts.

(** ** The mode flag and the adaptation *)

Section Adaptation.

Context {tf : trns.Transformations} {la : npl.Linalg}.

Lemma spin_snoc (self1 self2 self3 : MRAC_Controller) :
  spin self1 self2 -> callback self2 self3 -> spin self1 self3.
Proof.
  induction 1 as [s | s1 s2 s3' Hc _ IH]; intros H.
  - eapply spin_next; [exact H | apply spin_done].
  - eapply spin_next; [exact Hc | now apply IH].
Qed.

(** The constructor's rate [ki = 0.1] on every axis: the disturbance
    estimate moves by a tenth of the error integrated over the timestep,
    and stays only if that is zero. *)
Lemma dist_est_moves (d d' k e : vec3) (dt : R) :
  k = (0.1, 0.1, 0.1) ->
  d' = V3.add d (V3.scale (V3.mul k e) dt) ->
  V3.sub d' d = V3.scale (V3.scale e dt) 0.1 /\
  (V3.scale e dt <> (0, 0, 0) -> d' <> d).
Proof.
  intros -> ->. destruct d as [[d0 d1] d2], e as [[e0 e1] e2].
  cbn [V3.add V3.scale V3.mul V3.sub]. split.
  - entrywise; lra.
  - intros Hne Heq. apply Hne. injection Heq as E0 E1 E2.
    entrywise; nra.
Qed.

(** C8 (as the code has it).  The controller has one control over the
    adaptive estimates, the flag [only_PD] of the constructor, and no
    callback changes it or the adaptation rates [ki = 0.1] and [kg = 3].
    The flag decides what the wrench is made of: when set, the wrench is
    the PD term alone; when clear, the inertial feedforward, the
    disturbance estimate and the drag-regressor term are added.  Under
    either value of the flag every tick goes on adapting: [dist_est]
    moves by [ki * err * dt] and [drag_est] by
    [kg * Y.T.dot(err + errdot) * dt], so that the tick changes
    [dist_est] whenever [err * dt] is not zero.  Nothing disables the
    adaptation. *)
Theorem adaptation_is_not_switched_off
  (flag : bool) (msg : Odometry) (self self' : MRAC_Controller)
  (w : WrenchStamped) (p : PoseStamped) :
  spin (Run.constructed flag) self ->
  get_command msg self = Some (self', w, p) ->
  let s := unpack msg self in
  let Rm := frame_R (odom_orientation msg) in
  let kp := M3.mm (M3.mm Rm (kp_body self)) (M3.T Rm) in
  let kd := M3.mm (M3.mm Rm (kd_body self)) (M3.T Rm) in
  let pd := V3.add (M3.mv kp (err s)) (M3.mv kd (errdot s)) in
  let inertial_feedforward :=
    V3.mul (V3.concat (a_ref self) (aa_ref self))
           (mass_ref self, mass_ref self, inertia_ref self) in
  (only_PD self = flag /\ ki self = (0.1, 0.1, 0.1) /\ kg self = (3, 3, 3, 3, 3)) /\
  (flag = true -> w = wrench_msg (body_wrench s pd)) /\
  (flag = false ->
     w = wrench_msg
           (body_wrench s
              (V3.add (V3.add (V3.add pd inertial_feedforward) (dist_est self))
                      (M35.mv (drag_regressor s) (drag_est self))))) /\
  dist_est self' =
    V3.add (dist_est self) (V3.scale (V3.mul (ki self) (err s)) (timestep s)) /\
  drag_est self' =
    V5.add (drag_est self)
      (V5.scale (V5.mul (kg self)
                   (M35.Tmv (drag_regressor s) (V3.add (err s) (errdot s))))
                (timestep s)) /\
  V3.sub (dist_est self') (dist_est self) =
    V3.scale (V3.scale (err s) (timestep s)) 0.1 /\
  (V3.scale (err s) (timestep s) <> (0, 0, 0) -> dist_est self' <> dist_est self) /\
  spin (Run.constructed flag) self'.
Proof.
  intros Hspin H s Rm kp kd pd ff.
  destruct (spin_same_configuration _ _ Hspin)
    as (_ & _ & Hki & Hkg & _ & _ & Hpd & _).
  destruct (tick_wrench_and_estimates _ _ _ _ _ H) as (Wt & Wf & Ed & Eg & _).
  destruct (dist_est_moves _ _ _ _ _ Hki Ed) as (Ediff & Hmoves).
  split; [split; [exact Hpd | split; [exact Hki | exact Hkg]]|].
  split; [intros ->; now apply Wt|].
  split; [intros ->; now apply Wf|].
  split; [exact Ed|]. split; [exact Eg|]. split; [exact Ediff|].
  split; [exact Hmoves|].
  apply spin_snoc with self; [exact Hspin | exact (on_odom _ _ _ _ _ H)].
Qed.

End Adaptation.

(** The first message, the vehicle 5 m behind the reference, with the
    flag set either way: the disturbance estimate leaves zero. *)
Lemma first_tick_adapts (flag : bool) :
  exists self' w p,
    get_command (tf := tf_reference.tf) (la := pinv_reference.la)
      (Run.odom Run.t1 (-5) 0) (Run.constructed flag) = Some (self', w, p) /\
    V3.i0 (dist_est self') = 0 + 0.1 * (0 - -5) * 0.02 /\
    dist_est self' <> dist_est (Run.constructed flag).
Proof.
  destruct (reference_tick (tf := tf_reference.tf) (Run.odom Run.t1 (-5) 0)
              (Run.constructed flag) eq_refl eq_refl) as (self' & w & p & H).
  exists self', w, p. split; [exact H|].
  apply get_command_step in H as (Hstep & _).
  apply increment_reference_frame in Hstep as (Hd & _).
  assert (E : V3.i0 (dist_est self') = 0 + 0.1 * (0 - -5) * 0.02)
    by (rewrite Hd; reflexivity).
  split; [exact E|].
  intros Heq. rewrite Heq in E.
  change (V3.i0 (dist_est (Run.constructed flag))) with 0 in E. lra.
Qed.

(** C8, refuted.  The one configuration setting that acts on the
    estimates is the flag [only_PD], and with the flag set as with the
    flag clear the first tick changes [dist_est]: no setting leaves the
    estimates unchanged by every tick. *)
Lemma no_setting_stops_adaptation :
  (exists self' w p,
     get_command (tf := tf_reference.tf) (la := pinv_reference.la)
       (Run.odom Run.t1 (-5) 0) (Run.constructed true) = Some (self', w, p) /\
     V3.i0 (dist_est self') = 0 + 0.1 * (0 - -5) * 0.02 /\
     dist_est self' <> dist_est (Run.constructed true)) /\
  (exists self' w p,
     get_command (tf := tf_reference.tf) (la := pinv_reference.la)
       (Run.odom Run.t1 (-5) 0) (Run.constructed false) = Some (self', w, p) /\
     V3.i0 (dist_est self') = 0 + 0.1 * (0 - -5) * 0.02 /\
     dist_est self' <> dist_est (Run.constructed false)) /\
  Run.constructed true = init.
Proof.
  split; [exact (first_tick_adapts true)|].
  split; [exact (first_tick_adapts false) | reflexivity].
Qed.

(** The theorem on the first message, with the flag clear: the wrench is
    not the PD term alone, and the disturbance estimate moves. *)
Lemma adaptation_is_not_switched_off_witness :
  exists self' w p,
    get_command (tf := tf_reference.tf) (la := pinv_reference.la)
      (Run.odom Run.t1 (-5) 0) (Run.constructed false) = Some (self', w, p) /\
    V3.scale (err (tf := tf_reference.tf)
                (unpack (tf := tf_reference.tf) (Run.odom Run.t1 (-5) 0)
                   (Run.constructed false))) 0.02 <> (0, 0, 0) /\
    ki (Run.constructed false) = (0.1, 0.1, 0.1) /\
    dist_est self' <> dist_est (Run.constructed false).
Proof.
  destruct (reference_tick (tf := tf_reference.tf) (Run.odom Run.t1 (-5) 0)
              (Run.constructed false) eq_refl eq_refl) as (self' & w & p & H).
  exists self', w, p. split; [exact H|].
  assert (Hne : V3.scale (err (tf := tf_reference.tf)
                  (unpack (tf := tf_reference.tf) (Run.odom Run.t1 (-5) 0)
                     (Run.constructed false))) 0.02 <> (0, 0, 0)).
  { intros E. apply (f_equal V3.i0) in E.
    change ((0 - -5) * 0.02 = 0) in E. lra. }
  split; [exact Hne|]. split; [reflexivity|].
  destruct (adaptation_is_not_switched_off (tf := tf_reference.tf) (la := pinv_reference.la)
              false (Run.odom Run.t1 (-5) 0) (Run.constructed false) self' w p
              (spin_done _) H)
    as (_ & _ & _ & _ & _ & _ & Hmoves & _).
  exact (Hmoves Hne).
Defined.


(** ** The further properties on concrete runs *)

Lemma arctan2_east : np.arctan2 0 1 = 0.
Proof.
  unfold np.arctan2. destruct (Rlt_dec 0 1); [|lra].
  replace (0 / 1) with 0 by field. apply atan_0.
Qed.

(** tf gives yaw 0 to a quaternion [[x, 0, 0, w]]: a rotation about the
    x axis, or the zero quaternion. *)
Lemma reference_yaw_about_x (x w : R) :
  V3.i2 (tf_reference.euler_from_quaternion (x, 0, 0, w)) = 0.
Proof.
  unfold tf_reference.euler_from_quaternion, tf_reference.quaternion_matrix.
  destruct (Rlt_dec _ _).
  - unfold tf_reference.euler_from_matrix, tf_reference.identity4.
    cbv beta iota zeta. destruct (Rlt_dec _ _); cbn [V3.i2]; [|reflexivity].
    apply arctan2_east.
  - unfold tf_reference.euler_from_matrix. cbv beta iota zeta.
    destruct (Rlt_dec _ _); cbn [V3.i2]; [|reflexivity].
    match goal with
    | |- np.arctan2 ?a ?b = 0 =>
        replace a with 0 by ring; replace b with 1 by ring
    end.
    apply arctan2_east.
Qed.

Lemma reference_step (self : MRAC_Controller) :
  length (thruster_directions self) = 4%nat ->
  length (lever_arms self) = 4%nat ->
  exists self',
    increment_reference (tf := tf_reference.tf) (la := pinv_reference.la) self
    = Some self'.
Proof.
  intros Hd Hl.
  destruct (increment_reference (tf := tf_reference.tf) (la := pinv_reference.la) self)
    as [s|] eqn:E; [eauto|].
  apply increment_reference_None in E.
  now apply (reference_pinv_nonempty (tf := tf_reference.tf)) in E.
Qed.

Lemma D_body_init_nonneg :
  0 <= V3.i0 (D_body init) /\ 0 <= V3.i1 (D_body init) /\ 0 <= V3.i2 (D_body init).
Proof.
  unfold init. cbn [D_body V3.div V3.abs V3.sq V3.i0 V3.i1 V3.i2].
  repeat split; unfold Rdiv; (apply Rmult_le_pos;
    [apply Rabs_pos | left; apply Rinv_0_lt_compat; apply pow_lt; lra]).
Qed.

(** X1 on the saturated surge command of the examples. *)
Lemma achieved_wrench_proportional_witness :
  exists command k,
    thruster_mapper (la := pinv_reference.la) init (1000, 0, 0) Run.B0 = Some command /\
    0 <= k <= 1 /\
    np.mv_3N Run.B0 command = V3.scale (1000, 0, 0) k.
Proof.
  destruct saturated_command as (command & H & _).
  destruct (achieved_wrench_proportional (la := pinv_reference.la)
              init (1000, 0, 0) Run.B0 command
              thrust_max_init_nonneg B0_full_row_rank B0_is_pinv H)
    as (k & Hk & _ & E).
  exists command, k. auto.
Defined.

Lemma thruster_mapper_zero_wrench_witness :
  thruster_mapper (la := pinv_reference.la) init (0, 0, 0) Run.B0 =
    Some (repeat 0 (length (npl.pinv (Linalg := pinv_reference.la) Run.B0))).
Proof.
  exact (proj1 (thruster_mapper_zero_wrench (la := pinv_reference.la) init Run.B0
                  thrust_max_init_nonneg pinv_B0_nonempty)).
Defined.

(** X4 on the reference step from the initial state. *)
Lemma increment_reference_touches_reference_only_witness :
  exists self',
    increment_reference (tf := tf_reference.tf) (la := pinv_reference.la) init
    = Some self' /\
    dist_est self' = dist_est init /\ p_des self' = p_des init.
Proof.
  destruct (reference_step init eq_refl eq_refl) as (self' & H).
  exists self'. split; [exact H|].
  destruct (increment_reference_touches_reference_only _ _ H)
    as (_ & Hd & _ & Hp & _).
  auto.
Defined.

(** X5, X6 and X13 on the first message. *)
Lemma get_command_overwrites_vehicle_state_witness :
  exists self' w p,
    get_command (tf := tf_reference.tf) (la := pinv_reference.la)
      (Run.odom Run.t1 (-5) 0) init = Some (self', w, p) /\
    position self' = (-5, 0) /\
    last_odom self' = Some (Run.odom Run.t1 (-5) 0).
Proof.
  destruct first_tick as (self' & w & p & H).
  exists self', w, p. split; [exact H|].
  destruct (get_command_overwrites_vehicle_state _ _ _ _ _ H)
    as (_ & Hpos & _ & _ & _ & Hlast).
  auto.
Defined.

Lemma first_update_keeps_timestep_witness :
  last_odom init = None /\
  exists self' w p,
    get_command (tf := tf_reference.tf) (la := pinv_reference.la)
      (Run.odom Run.t1 (-5) 0) init = Some (self', w, p) /\
    timestep self' = 0.02.
Proof.
  split; [reflexivity|].
  destruct first_tick as (self' & w & p & H).
  exists self', w, p. split; [exact H|].
  destruct (first_update_keeps_timestep (Run.odom Run.t1 (-5) 0) init self' w p
              eq_refl H) as (_ & _ & _ & E).
  exact (E eq_refl).
Defined.

Lemma waypoint_after_tick_witness :
  exists self' w p,
    get_command (tf := tf_reference.tf) (la := pinv_reference.la)
      (Run.odom Run.t1 (-5) 0) init = Some (self', w, p) /\
    p_ref (fst (set_waypoint (tf := tf_reference.tf) Run.waypoint self')) = (-5, 0).
Proof.
  destruct first_tick as (self' & w & p & H).
  exists self', w, p. split; [exact H|].
  destruct (waypoint_after_tick (tf := tf_reference.tf) _ Run.waypoint _ _ _ _ H)
    as (E & _).
  exact E.
Defined.

(** X9 on the far waypoint. *)
Lemma far_step_ignores_q_des_witness :
  let self := fst (set_waypoint (tf := tf_reference.tf) Run.waypoint init) in
  heading_threshold self < npl.norm (V2.sub (p_des self) (p_ref self)) /\
  increment_reference (tf := tf_reference.tf) (la := pinv_reference.la)
    (with_q_des self (0, 0, 0, 1)) =
  option_map (fun s => with_q_des s (0, 0, 0, 1))
    (increment_reference (tf := tf_reference.tf) (la := pinv_reference.la) self).
Proof.
  intros self.
  assert (H : heading_threshold self < npl.norm (V2.sub (p_des self) (p_ref self)))
    by exact far_waypoint.
  split; [exact H|].
  exact (far_step_ignores_q_des self (0, 0, 0, 1) H).
Defined.

(** tf's rotation matrix of the orientation [[0, 0, 0, 1]] is the
    identity. *)
Lemma reference_matrix_identity :
  M3.of_mat4 (tf_reference.quaternion_matrix (0, 0, 0, 1)) =
  ((1, 0, 0), (0, 1, 0), (0, 0, 1)).
Proof.
  unfold tf_reference.quaternion_matrix.
  destruct (Rlt_dec _ _); cbn [M3.of_mat4 tf_reference.identity4]; [reflexivity|].
  entrywise; ring.
Qed.

(** No heading error between the desired heading 0 degrees and the
    orientation [[0, 0, 0, 1]], which is the yaw-only quaternion of its
    own yaw. *)
Lemma identity_heading_error :
  V3.i2 (tf_reference.euler_from_quaternion
           (tf_reference.quaternion_multiply
              (tf_reference.quaternion_from_euler 0 0 (np.deg2rad 0))
              (tf_reference.quaternion_inverse (0, 0, 0, 1)))) = 0.
Proof.
  rewrite reference_yaw_quaternion.
  replace (np.deg2rad 0 / 2) with 0 by (unfold np.deg2rad; field).
  rewrite sin_0, cos_0.
  replace (tf_reference.quaternion_multiply (0, 0, 0, 1)
             (tf_reference.quaternion_inverse (0, 0, 0, 1)))
    with (0, 0, 0, 1).
  - apply reference_yaw_about_x.
  - unfold tf_reference.quaternion_multiply, tf_reference.quaternion_inverse.
    entrywise; field; lra.
Qed.

Lemma identity_is_yaw_only :
  tf_reference.quaternion_from_euler 0 0
    (V3.i2 (tf_reference.euler_from_quaternion (0, 0, 0, 1))) = (0, 0, 0, 1).
Proof.
  rewrite reference_yaw_about_x, reference_yaw_quaternion.
  replace (0 / 2) with 0 by field. now rewrite sin_0, cos_0.
Qed.

(** The surge drag coefficient of the constructor is positive. *)
Lemma D_body_init_surge : 0 < V3.i0 (D_body init).
Proof.
  unfold init. cbn [D_body V3.div V3.abs V3.sq V3.i0].
  unfold Rdiv. apply Rmult_lt_0_compat.
  - apply Rabs_pos_lt.
    cbn [V6.i0 np.mv_6N np.mv_3N np.T np.dot np.scale map V3.i0 V3.i1 V3.i2 fst snd].
    lra.
  - apply Rinv_0_lt_compat. apply pow_lt. lra.
Qed.

(** A waypoint commanded after the first message, where the vehicle is:
    the state of the vehicle, the reference and the configuration. *)
Lemma waypoint_on_first_message (msg : Odometry) :
  exists s1 w p,
    get_command (tf := tf_reference.tf) (la := pinv_reference.la) msg init
      = Some (s1, w, p) /\
    let self := fst (set_waypoint (tf := tf_reference.tf) origin s1) in
    p_ref self = (pt_x (pose_position msg), pt_y (pose_position msg)) /\
    q_ref self = odom_orientation msg /\
    v_ref self = lin_vel (unpack (tf := tf_reference.tf) msg init) /\
    w_ref self = ang_vel (unpack (tf := tf_reference.tf) msg init) /\
    p_des self = (0, 0) /\
    q_des self = tf_reference.quaternion_from_euler 0 0 (np.deg2rad 0) /\
    same_configuration init self.
Proof.
  destruct (reference_tick (tf := tf_reference.tf) msg init eq_refl eq_refl)
    as (s1 & w & p & H).
  exists s1, w, p. split; [exact H|].
  destruct (tick_vehicle_state _ _ _ _ _ H) as (Hpos & Hor & Hlin & Hang).
  destruct (get_command_keeps _ _ _ _ _ H) as (Hcfg & _).
  cbn [set_waypoint fst p_ref q_ref v_ref w_ref p_des q_des].
  split; [exact Hpos|]. split; [exact Hor|]. split; [exact Hlin|].
  split; [exact Hang|]. split; [reflexivity|]. split; [reflexivity|].
  apply same_configuration_trans with s1; [exact Hcfg|].
  exact (callback_same_configuration (tf := tf_reference.tf) (la := pinv_reference.la)
           _ _ (on_waypoint origin s1)).
Qed.

(** X10 on a waypoint commanded where the vehicle stands at rest, heading
    as the vehicle does. *)
Lemma reference_holds_station_witness :
  exists s1 w p self',
    get_command (tf := tf_reference.tf) (la := pinv_reference.la)
      (Run.odom Run.t1 0 0) init = Some (s1, w, p) /\
    let self := fst (set_waypoint (tf := tf_reference.tf) origin s1) in
    thruster_mapper (la := pinv_reference.la) self
      (ref_wrench (tf := tf_reference.tf) self)
      (B_3dof (ref_B (tf := tf_reference.tf) self)) =
      Some (repeat 0 (length (npl.pinv (Linalg := pinv_reference.la)
                                (B_3dof (ref_B (tf := tf_reference.tf) self))))) /\
    increment_reference (tf := tf_reference.tf) (la := pinv_reference.la) self
      = Some self' /\
    reference_state self' = ((0, 0), (0, 0), (0, 0, 0, 1), 0, (0, 0), 0) /\
    increment_reference (tf := tf_reference.tf) (la := pinv_reference.la) self'
      = Some self'.
Proof.
  destruct (waypoint_on_first_message (Run.odom Run.t1 0 0))
    as (s1 & w & p & H & Hp & Hq & Hv & Hw & Hpd & Hqd & Hcfg).
  exists s1, w, p.
  set (self := fst (set_waypoint (tf := tf_reference.tf) origin s1)) in *.
  change (odom_orientation (Run.odom Run.t1 0 0)) with (0, 0, 0, 1) in Hq.
  change (pt_x (pose_position (Run.odom Run.t1 0 0)),
          pt_y (pose_position (Run.odom Run.t1 0 0))) with (0, 0) in Hp.
  assert (Hv0 : v_ref self = (0, 0)).
  { rewrite Hv. cbn [unpack lin_vel Run.odom twist_linear v3_x v3_y v3_z].
    now rewrite M3_mv_zero. }
  assert (Hw0 : w_ref self = 0).
  { rewrite Hw. cbn [unpack ang_vel Run.odom twist_angular v3_x v3_y v3_z].
    now rewrite M3_mv_zero. }
  destruct Hcfg as (_ & _ & _ & _ & _ & Hth & _ & Hm & Hi & Ht & _ & Hdir & Hlev & _).
  destruct (reference_holds_station (tf := tf_reference.tf) (la := pinv_reference.la) self)
    as (self' & Hc & E & Er & Efix).
  - now rewrite Hp, Hpd.
  - exact Hv0.
  - exact Hw0.
  - rewrite Hqd, Hq. exact identity_heading_error.
  - unfold y_ref. rewrite Hq. exact identity_is_yaw_only.
  - rewrite Hth. cbn [init heading_threshold]. lra.
  - rewrite Ht. exact thrust_max_init_nonneg.
  - rewrite Hm. cbn [init mass_ref]. lra.
  - rewrite Hi. cbn [init inertia_ref]. lra.
  - apply (reference_pinv_nonempty (tf := tf_reference.tf)).
    + now rewrite Hdir.
    + now rewrite Hlev.
  - exists self'. split; [exact H|]. split; [exact Hc|]. split; [exact E|].
    split; [|exact Efix].
    rewrite Er, Hp, Hq. reflexivity.
Defined.

(** X11 on a waypoint commanded while the vehicle moves forward at 1 m/s:
    the reference starts with that velocity, and the drag brakes it. *)
Lemma reference_drag_opposes_motion_witness :
  exists s1 w p self',
    get_command (tf := tf_reference.tf) (la := pinv_reference.la)
      (cruising Run.t1) init = Some (s1, w, p) /\
    let self := fst (set_waypoint (tf := tf_reference.tf) origin s1) in
    v_ref self = (1, 0) /\
    V3.i0 (ref_twist_body (tf := tf_reference.tf) self) = 1 /\
    0 < V3.i0 (D_body self) /\
    increment_reference (tf := tf_reference.tf) (la := pinv_reference.la) self
      = Some self' /\
    0 < V3.dot (ref_drag (tf := tf_reference.tf) self)
               (V3.concat (v_ref self) (w_ref self)).
Proof.
  destruct (waypoint_on_first_message (cruising Run.t1))
    as (s1 & w & p & H & Hp & Hq & Hv & Hw & Hpd & Hqd & Hcfg).
  exists s1, w, p.
  set (self := fst (set_waypoint (tf := tf_reference.tf) origin s1)) in *.
  change (odom_orientation (cruising Run.t1)) with (0, 0, 0, 1) in Hq.
  assert (Hv1 : v_ref self = (1, 0)).
  { rewrite Hv. cbn [unpack lin_vel cruising twist_linear v3_x v3_y v3_z].
    change (frame_R (tf := tf_reference.tf) (odom_orientation (cruising Run.t1)))
      with (M3.of_mat4 (tf_reference.quaternion_matrix (0, 0, 0, 1))).
    rewrite reference_matrix_identity. cbn [M3.mv V3.dot V3.head2].
    entrywise; ring. }
  assert (Hw0 : w_ref self = 0).
  { rewrite Hw. cbn [unpack ang_vel cruising twist_angular v3_x v3_y v3_z].
    now rewrite M3_mv_zero. }
  assert (Ht1 : V3.i0 (ref_twist_body (tf := tf_reference.tf) self) = 1).
  { unfold ref_twist_body, R_ref. rewrite Hq, Hv1, Hw0.
    change (trns.quaternion_matrix (0, 0, 0, 1))
      with (tf_reference.quaternion_matrix (0, 0, 0, 1)).
    rewrite reference_matrix_identity.
    cbn [M3.T M3.mv V3.concat V3.dot V3.i0]. ring. }
  destruct Hcfg as (_ & _ & _ & _ & _ & _ & _ & _ & _ & _ & _ & Hdir & Hlev
                    & _ & _ & _ & _ & HD & _).
  assert (HD0 : 0 < V3.i0 (D_body self)) by (rewrite HD; exact D_body_init_surge).
  destruct (reference_step self) as (self' & E).
  { now rewrite Hdir. }
  { now rewrite Hlev. }
  exists self'. split; [exact H|]. split; [exact Hv1|]. split; [exact Ht1|].
  split; [exact HD0|]. split; [exact E|].
  destruct D_body_init_nonneg as (H0 & H1 & H2). rewrite <- HD in H0, H1, H2.
  destruct (reference_drag_opposes_motion _ _ H0 H1 H2 E) as (c & _ & _ & _ & _ & Hpos).
  apply Hpos; [exact HD0 | rewrite Ht1; lra].
Defined.

(** X14 on a waypoint command followed by nothing. *)
Lemma waypoint_then_nothing :
  spin (tf := tf_reference.tf) (la := pinv_reference.la)
    init (fst (set_waypoint (tf := tf_reference.tf) Run.waypoint init)).
Proof. eapply spin_next; [apply on_waypoint | apply spin_done]. Qed.

Lemma configuration_is_invariant_witness :
  same_configuration init (fst (set_waypoint (tf := tf_reference.tf) Run.waypoint init)).
Proof.
  exact (configuration_is_invariant (tf := tf_reference.tf) (la := pinv_reference.la)
           _ _ waypoint_then_nothing).
Defined.

(** X16 on the first message, the vehicle standing on the reference. *)
Lemma init_heading_error :
  V3.i2 (tf_reference.euler_from_quaternion
           (tf_reference.quaternion_multiply (0, 0, 0, 0)
              (tf_reference.quaternion_inverse (0, 0, 0, 1)))) = 0.
Proof.
  replace (tf_reference.quaternion_multiply (0, 0, 0, 0)
             (tf_reference.quaternion_inverse (0, 0, 0, 1)))
    with (0, 0, 0, 0).
  - apply reference_yaw_about_x.
  - unfold tf_reference.quaternion_multiply, tf_reference.quaternion_inverse.
    entrywise; ring.
Qed.

Lemma tick_on_reference_at_rest_witness :
  exists self' w p,
    get_command (tf := tf_reference.tf) (la := pinv_reference.la)
      (Run.odom Run.t1 0 0) init = Some (self', w, p) /\
    dist_est self' = dist_est init /\ drag_est self' = drag_est init /\
    w = wrench_msg (0, 0, 0).
Proof.
  destruct (reference_tick (tf := tf_reference.tf) (Run.odom Run.t1 0 0) init
              eq_refl eq_refl) as (self' & w & p & H).
  exists self', w, p. split; [exact H|].
  destruct (tick_on_reference_at_rest (tf := tf_reference.tf) (la := pinv_reference.la)
              (Run.odom Run.t1 0 0) init self' w p
              eq_refl eq_refl eq_refl eq_refl eq_refl init_heading_error H)
    as (Hd & Hg & Hw).
  split; [exact Hd|]. split; [exact Hg | exact (Hw eq_refl)].
Defined.

(** X17 on one message delivered twice. *)
Lemma repeated_stamp_freezes_witness :
  exists s1 w1 p1 s2 w2 p2,
    get_command (tf := tf_reference.tf) (la := pinv_reference.la)
      (Run.odom Run.t1 0 0) init = Some (s1, w1, p1) /\
    get_command (tf := tf_reference.tf) (la := pinv_reference.la)
      (Run.odom Run.t1 0 0) s1 = Some (s2, w2, p2) /\
    timestep s2 = 0 /\ dist_est s2 = dist_est s1 /\ p_ref s2 = p_ref s1.
Proof.
  destruct (two_ticks Run.t1 Run.t1) as (s1 & w1 & p1 & s2 & w2 & p2 & H1 & Hlast & H2).
  exists s1, w1, p1, s2, w2, p2.
  split; [exact H1|]. split; [exact H2|].
  destruct (repeated_stamp_freezes (tf := tf_reference.tf) (la := pinv_reference.la)
              (Run.odom Run.t1 0 0) (Run.odom Run.t1 0 0) s1 s2 w2 p2 Hlast eq_refl H2)
    as (Ht & Hd & _ & Hp & _).
  auto.
Defined.
